(** * Event and Location concepts (src/server/concepts/location.ts)

    A shallow embedding of [EventConcept] and [LocationConcept] and the
    properties of their RSVP, tag-list, update/delete and geocoding
    operations.

    Conventions of the embedding.
    - An [ObjectId] value is the identity's hexadecimal text, which is what
      the collection stores and what [toString()] gives.  In memory an
      ObjectId is an object ([Obj]): JavaScript's [includes] / [indexOf] on
      an [ObjectId[]] compare its elements with the searched object by
      reference, not by text.
    - An [async] method is a computation over the document collection that
      settles as fulfilled or rejected.  Calling an async method without
      [await] ([detach]) starts it at that point, discards its value, and
      leaves a rejection unhandled: the caller never sees it. *)

From Stdlib Require Import ZArith QArith String Ascii List.
From stdpp Require Import base decidable option list gmap strings stringmap.

Open Scope string_scope.
Open Scope list_scope.
Open Scope Z_scope.

(** ** JavaScript arrays and strings *)

Module JS.
Section Array.
Context {A : Type} `{EqDecision A}.

(** [Array.prototype.push]: the array after appending one element. *)
Definition push (l : list A) (x : A) : list A := l ++ [x].

Fixpoint indexOf_from (l : list A) (x : A) (i : Z) : Z :=
  match l with
  | [] => -1
  | y :: l' => if decide (y = x) then i else indexOf_from l' x (i + 1)
  end.

(** [Array.prototype.indexOf]: first index holding [x], or [-1]. *)
Definition indexOf (l : list A) (x : A) : Z := indexOf_from l x 0.

(** [Array.prototype.includes]. *)
Fixpoint includes (l : list A) (x : A) : bool :=
  match l with
  | [] => false
  | y :: l' => if decide (y = x) then true else includes l' x
  end.

(** [Array.prototype.splice(start, deleteCount)]: the array left after the
    call.  A negative [start] counts from the end; a [start] past the end
    is clamped to the length. *)
Definition splice (l : list A) (start deleteCount : Z) : list A :=
  let len := Z.of_nat (length l) in
  let from := if start <? 0 then Z.max (len + start) 0 else Z.min start len in
  let count := Z.min (Z.max deleteCount 0) (len - from) in
  take (Z.to_nat from) l ++ drop (Z.to_nat (from + count)) l.
End Array.

(** [String.prototype.includes]: [search] occurs somewhere in [s]. *)
Fixpoint str_includes (s search : string) : bool :=
  String.prefix search s
  || match s with
     | EmptyString => false
     | String _ s' => str_includes s' search
     end.
End JS.

(** ** Errors (./errors) and identities *)

Abbreviation ObjectId := string.
Definition toString (o : ObjectId) : string := o.

(** Where an ObjectId object was made: by the caller, who passes it as an
    argument, or by [readOne], which builds a new object for the element at
    each index of each field of the record it returns. *)
Inductive Ref :=
| Argument
| Deserialised (field : string) (index : nat).

(** An ObjectId object in memory.  Strict equality ([===], and so
    [Array.prototype.includes] and [indexOf]) holds between two objects only
    when they are the same object. *)
Record Obj := mkObj { ref : Ref; oid : ObjectId }.

#[global] Instance Ref_eq_dec : EqDecision Ref := ltac:(solve_decision).
#[global] Instance Obj_eq_dec : EqDecision Obj := ltac:(solve_decision).

(** The object the caller passes for an identity. *)
Definition argument (o : ObjectId) : Obj := mkObj Argument o.

Fixpoint deserialise_from (field : string) (index : nat) (l : list ObjectId) : list Obj :=
  match l with
  | [] => []
  | o :: l' => mkObj (Deserialised field index) o :: deserialise_from field (S index) l'
  end.

(** The array [readOne] hands out for an [ObjectId[]] field: one new object
    per stored identity. *)
Definition deserialise (field : string) (l : list ObjectId) : list Obj :=
  deserialise_from field 0 l.

(** What [updateOne] stores for an array of ObjectId objects: their
    identities. *)
Definition serialise (l : list Obj) : list ObjectId := oid <$> l.

Inductive Error :=
| NotFoundError (msg : string)
| NotAllowedError (msg : string)
| EventHostNotMatchError (host _id : ObjectId)
| TypeError (msg : string).

(** [EventHostNotMatchError extends NotAllowedError]. *)
Definition isNotAllowed (e : Error) : bool :=
  match e with
  | NotAllowedError _ | EventHostNotMatchError _ _ => true
  | _ => false
  end.

(** ** The Event document *)

Record EventDoc := mkEventDoc {
  _id : ObjectId;
  host : ObjectId;
  title : string;
  description : string;
  location : string;
  ageReq : Z;
  capacity : Z;
  topics : list string;
  amenities : list string;
  accommodations : list string;
  interested : list ObjectId;
  attending : list ObjectId
}.

(** [Partial<EventDoc>] over the fields an Event declares: each field is
    either a key of the object or not.  The keys [EventDoc] inherits from
    [BaseDoc] (../framework/doc) are outside this file and not among them. *)
Module Partial.
Record t := mk {
  host : option ObjectId;
  title : option string;
  description : option string;
  location : option string;
  ageReq : option Z;
  capacity : option Z;
  topics : option (list string);
  amenities : option (list string);
  accommodations : option (list string);
  interested : option (list ObjectId);
  attending : option (list ObjectId)
}.

Definition empty : t :=
  mk None None None None None None None None None None None.

Definition key {A} (name : string) (field : option A) : list string :=
  match field with Some _ => [name] | None => [] end.

(** The keys a [for ... in] loop visits. *)
Definition keys (u : t) : list string :=
  key "host" (host u) ++ key "title" (title u)
  ++ key "description" (description u) ++ key "location" (location u)
  ++ key "ageReq" (ageReq u) ++ key "capacity" (capacity u)
  ++ key "topics" (topics u) ++ key "amenities" (amenities u)
  ++ key "accommodations" (accommodations u)
  ++ key "interested" (interested u) ++ key "attending" (attending u).
End Partial.

(** Field-level merge of a partial document into a stored one ([$set]):
    every key of [u] overwrites the field of that name. *)
Definition merge (u : Partial.t) (d : EventDoc) : EventDoc :=
  {| _id := _id d;
     host := default (host d) (Partial.host u);
     title := default (title d) (Partial.title u);
     description := default (description d) (Partial.description u);
     location := default (location d) (Partial.location u);
     ageReq := default (ageReq d) (Partial.ageReq u);
     capacity := default (capacity d) (Partial.capacity u);
     topics := default (topics d) (Partial.topics u);
     amenities := default (amenities d) (Partial.amenities u);
     accommodations := default (accommodations d) (Partial.accommodations u);
     interested := default (interested d) (Partial.interested u);
     attending := default (attending d) (Partial.attending u) |}.

(** ** Asynchronous computations over the document collection *)

(** Modelled from the spec: the storage boundary ([DocCollection] of
    ../framework/doc), a document collection keyed by opaque id with
    [createOne(fields) -> id], [readOne(filter) -> record | absent],
    [updateOne(filter, partialFields) -> ack] and [deleteOne(filter) -> ack].
    Filters are always of the form [{ _id }] here. *)
Abbreviation DocCollection := (gmap ObjectId EventDoc).

Inductive Settled (A : Type) :=
| Fulfilled (value : A)
| Rejected (reason : Error).
Arguments Fulfilled {A} value.
Arguments Rejected {A} reason.

(** What running an async method leaves behind: how its promise settled, the
    rejections of promises nobody awaited, and the collection. *)
Record Outcome (A : Type) := mkOutcome {
  settled : Settled A;
  unhandled : list Error;
  db : DocCollection
}.
Arguments mkOutcome {A} settled unhandled db.
Arguments settled {A} o.
Arguments unhandled {A} o.
Arguments db {A} o.

Record Async (A : Type) := mkAsync { run : DocCollection -> Outcome A }.
Arguments mkAsync {A} run.
Arguments run {A} a c.

Definition resolve {A} (a : A) : Async A :=
  mkAsync (fun c => mkOutcome (Fulfilled a) [] c).

Definition throw {A} (e : Error) : Async A :=
  mkAsync (fun c => mkOutcome (Rejected e) [] c).

(** [await m] followed by the rest of the method body. *)
Definition await {A B} (m : Async A) (k : A -> Async B) : Async B :=
  mkAsync (fun c =>
    let r := run m c in
    match settled r with
    | Fulfilled a =>
        let r' := run (k a) (db r) in
        mkOutcome (settled r') (unhandled r ++ unhandled r') (db r')
    | Rejected e => mkOutcome (Rejected e) (unhandled r) (db r)
    end).

(** A call whose promise is dropped: its effects happen, its value is lost and
    a rejection stays unhandled. *)
Definition detach {A} (m : Async A) : Async unit :=
  mkAsync (fun c =>
    let r := run m c in
    mkOutcome (Fulfilled tt)
      (unhandled r ++ match settled r with
                      | Fulfilled _ => []
                      | Rejected e => [e]
                      end)
      (db r)).

#[global] Instance Async_ret : MRet Async := @resolve.
#[global] Instance Async_bind : MBind Async := fun A B k m => await m k.

Module DocCollection.
(** Modelled from the spec: [createOne(fields) -> id] stores the fields
    under an id not yet in use and returns that id. *)
Definition createOne (item : ObjectId -> EventDoc) : Async ObjectId :=
  mkAsync (fun c =>
    let _id := fresh_string "event" c in
    mkOutcome (Fulfilled _id) [] (<[_id := item _id]> c)).

(** Modelled from the spec: [readOne(filter) -> record | absent]. *)
Definition readOne (_id : ObjectId) : Async (option EventDoc) :=
  mkAsync (fun c => mkOutcome (Fulfilled (c !! _id)) [] c).

(** Modelled from the spec: [updateOne(filter, partialFields) -> ack]
    merges the fields into the matching record, if there is one. *)
Definition updateOne (_id : ObjectId) (update : Partial.t) : Async unit :=
  mkAsync (fun c => mkOutcome (Fulfilled tt) [] (alter (merge update) _id c)).

(** Modelled from the spec: [deleteOne(filter) -> ack] removes the matching
    record, if there is one. *)
Definition deleteOne (_id : ObjectId) : Async unit :=
  mkAsync (fun c => mkOutcome (Fulfilled tt) [] (delete _id c)).
End DocCollection.

(** ** EventConcept *)

Record Msg := mkMsg { msg : string }.
Record Created := mkCreated { created_msg : string; event : option EventDoc }.

Module EventConcept.
Import DocCollection.

Definition create (host' : ObjectId) (title' description' location' : string)
    (ageReq' capacity' : Z) : Async Created :=
  _id ← createOne (fun _id =>
           mkEventDoc _id host' title' description' location' ageReq'
             capacity' [] [] [] [] []);
  event ← readOne _id;
  resolve (mkCreated "Event successfully created!" event).

Definition isHost (host' _id : ObjectId) : Async unit :=
  event ← readOne _id;
  match event with
  | None => throw (NotFoundError ("Event " +:+ toString _id +:+ " does not exist!"))
  | Some event =>
      if negb (bool_decide (toString (host event) = toString host'))
      then throw (EventHostNotMatchError host' _id)
      else resolve tt
  end.

Definition isNotHost (host' _id : ObjectId) : Async unit :=
  event ← readOne _id;
  match event with
  | None => throw (NotFoundError ("Event " +:+ toString _id +:+ " does not exist!"))
  | Some event =>
      if negb (bool_decide (toString (host event) = toString host'))
      then throw (NotAllowedError "Person is a host.")
      else resolve tt
  end.

(** [readOne] gives a record's fields by value.  Where a method calls an
    array method on an [ObjectId[]] field of the record it read, the array is
    the one [readOne] built for it ([deserialise]) and the person searched or
    pushed is the caller's object ([argument]); what is written back is
    [serialise]d. *)
Definition isInterested (person _id : ObjectId) : Async unit :=
  event ← readOne _id;
  match event with
  | None => throw (NotFoundError ("Event " +:+ toString _id +:+ " does not exist!"))
  | Some event =>
      if negb (JS.includes (deserialise "interested" (interested event)) (argument person))
      then throw (NotFoundError "Person not interested in event.")
      else resolve tt
  end.

Definition isNotInterested (person _id : ObjectId) : Async unit :=
  event ← readOne _id;
  match event with
  | None => throw (NotFoundError ("Event " +:+ toString _id +:+ " does not exist!"))
  | Some event =>
      if JS.includes (deserialise "interested" (interested event)) (argument person)
      then throw (NotFoundError "Person already interested in event.")
      else resolve tt
  end.

Definition isAttending (person _id : ObjectId) : Async unit :=
  event ← readOne _id;
  match event with
  | None => throw (NotFoundError ("Event " +:+ toString _id +:+ " does not exist!"))
  | Some event =>
      if negb (JS.includes (deserialise "attending" (attending event)) (argument person))
      then throw (NotFoundError "Person not attending event.")
      else resolve tt
  end.

Definition isNotAttending (person _id : ObjectId) : Async unit :=
  event ← readOne _id;
  match event with
  | None => throw (NotFoundError ("Event " +:+ toString _id +:+ " does not exist!"))
  | Some event =>
      if JS.includes (deserialise "attending" (attending event)) (argument person)
      then throw (NotFoundError "Person is already attending event.")
      else resolve tt
  end.

(** The object literal [{ interested: interested, attending: attending }]. *)
Definition rsvp_fields (interested' attending' : list ObjectId) : Partial.t :=
  Partial.mk None None None None None None None None None
    (Some interested') (Some attending').

Definition indicateInterest (person _id : ObjectId) : Async Msg :=
  detach (isNotHost person _id);;
  event ← readOne _id;
  match event with
  | None => throw (NotFoundError "Event does not exist.")
  | Some event =>
      let interested := deserialise "interested" (interested event) in
      let attending := deserialise "attending" (attending event) in
      let interested := JS.push interested (argument person) in
      let attend_idx := JS.indexOf attending (argument person) in
      let attending :=
        if negb (attend_idx =? -1) then JS.splice attending attend_idx 1
        else attending in
      detach (updateOne _id (rsvp_fields (serialise interested) (serialise attending)));;
      resolve (mkMsg "Successfully indicated interest in event.")
  end.

Definition removeInterest (person _id : ObjectId) : Async Msg :=
  detach (isNotHost person _id);;
  detach (isInterested person _id);;
  event ← readOne _id;
  match event with
  | None => throw (NotFoundError "Event does not exist.")
  | Some event =>
      let interested := deserialise "interested" (interested event) in
      let attending := deserialise "attending" (attending event) in
      let interest_idx := JS.indexOf interested (argument person) in
      let interested := JS.splice interested interest_idx 1 in
      let attend_idx := JS.indexOf attending (argument person) in
      let attending :=
        if negb (attend_idx =? -1) then JS.splice attending attend_idx 1
        else attending in
      detach (updateOne _id (rsvp_fields (serialise interested) (serialise attending)));;
      resolve (mkMsg "Successfully removed interest in event.")
  end.

Definition indicateAttendance (person _id : ObjectId) : Async Msg :=
  detach (isNotHost person _id);;
  event ← readOne _id;
  match event with
  | None => throw (NotFoundError "Event does not exist.")
  | Some event =>
      let interested := deserialise "interested" (interested event) in
      let attending := deserialise "attending" (attending event) in
      let attending := JS.push attending (argument person) in
      let interest_idx := JS.indexOf interested (argument person) in
      let attending :=
        if negb (interest_idx =? -1) then JS.splice attending interest_idx 1
        else attending in
      detach (updateOne _id (rsvp_fields (serialise interested) (serialise attending)));;
      resolve (mkMsg "Successfully indicated attendance for event.")
  end.

Definition removeAttendance (person _id : ObjectId) : Async Msg :=
  detach (isNotHost person _id);;
  detach (isAttending person _id);;
  event ← readOne _id;
  match event with
  | None => throw (NotFoundError "Event does not exist.")
  | Some event =>
      let interested := deserialise "interested" (interested event) in
      let attending := deserialise "attending" (attending event) in
      let attend_idx := JS.indexOf attending (argument person) in
      let attending := JS.push attending (argument person) in
      let interest_idx := JS.indexOf interested (argument person) in
      let attending :=
        if negb (interest_idx =? -1) then JS.splice attending interest_idx 1
        else attending in
      detach (updateOne _id (rsvp_fields (serialise interested) (serialise attending)));;
      resolve (mkMsg "Successfully removed attendance for event.")
  end.

Definition topics_field (topics' : list string) : Partial.t :=
  Partial.mk None None None None None None (Some topics') None None None None.

Definition amenities_field (amenities' : list string) : Partial.t :=
  Partial.mk None None None None None None None (Some amenities') None None None.

Definition accommodations_field (accommodations' : list string) : Partial.t :=
  Partial.mk None None None None None None None None (Some accommodations') None None.

Definition addTopic (_id : ObjectId) (topic : string) : Async Msg :=
  event ← readOne _id;
  match event with
  | None => throw (NotFoundError "Event does not exist.")
  | Some event =>
      let topics := topics event in
      if JS.str_includes topic topic
      then throw (NotAllowedError "Topic already exists.")
      else
        let topics := JS.push topics topic in
        detach (updateOne _id (topics_field topics));;
        resolve (mkMsg "Successfully added topic to event.")
  end.

Definition removeTopic (_id : ObjectId) (topic : string) : Async Msg :=
  event ← readOne _id;
  match event with
  | None => throw (NotFoundError "Event does not exist.")
  | Some event =>
      let topics := topics event in
      if negb (JS.str_includes topic topic)
      then throw (NotAllowedError "Topic does not exist.")
      else
        let topic_idx := JS.indexOf topics topic in
        let topics := JS.splice topics topic_idx 1 in
        detach (updateOne _id (topics_field topics));;
        resolve (mkMsg "Successfully removed topic from event.")
  end.

Definition addAmenity (_id : ObjectId) (amenity : string) : Async Msg :=
  event ← readOne _id;
  match event with
  | None => throw (NotFoundError "Event does not exist.")
  | Some event =>
      let amenities := amenities event in
      if JS.includes amenities amenity
      then throw (NotAllowedError "Amenity already exists.")
      else
        let amenities := JS.push amenities amenity in
        detach (updateOne _id (amenities_field amenities));;
        resolve (mkMsg "Successfully added amenity to event.")
  end.

Definition removeAmenity (_id : ObjectId) (amenity : string) : Async Msg :=
  event ← readOne _id;
  match event with
  | None => throw (NotFoundError "Event does not exist.")
  | Some event =>
      let amenities := amenities event in
      if negb (JS.str_includes amenity amenity)
      then throw (NotAllowedError "Amenity does not exist.")
      else
        let amenity_idx := JS.indexOf amenities amenity in
        let amenities := JS.splice amenities amenity_idx 1 in
        detach (updateOne _id (amenities_field amenities));;
        resolve (mkMsg "Successfully removed amenity from event.")
  end.

Definition addAccommodation (_id : ObjectId) (accommodation : string) : Async Msg :=
  event ← readOne _id;
  match event with
  | None => throw (NotFoundError "Event does not exist.")
  | Some event =>
      let accommodations := accommodations event in
      if JS.includes accommodations accommodation
      then throw (NotAllowedError "Accommodation already exists.")
      else
        let accommodations := JS.push accommodations accommodation in
        detach (updateOne _id (accommodations_field accommodations));;
        resolve (mkMsg "Successfully added accommodation to event.")
  end.

Definition removeAccommodation (_id : ObjectId) (accommodation : string) : Async Msg :=
  event ← readOne _id;
  match event with
  | None => throw (NotFoundError "Event does not exist.")
  | Some event =>
      let accommodations := accommodations event in
      if negb (JS.str_includes accommodation accommodation)
      then throw (NotAllowedError "Accommodation does not exist.")
      else
        let accommodation_idx := JS.indexOf accommodations accommodation in
        let accommodations := JS.splice accommodations accommodation_idx 1 in
        detach (updateOne _id (accommodations_field accommodations));;
        resolve (mkMsg "Successfully removed accommodation from event.")
  end.

(** The body of the [for (const key in update)] loop, over the keys left. *)
Fixpoint sanitize_keys (prohibitedUpdates keys : list string) : Settled unit :=
  match keys with
  | [] => Fulfilled tt
  | key :: keys' =>
      if JS.includes prohibitedUpdates key
      then Rejected (NotAllowedError ("Cannot update '" +:+ key +:+ "' field!"))
      else sanitize_keys prohibitedUpdates keys'
  end.

(** A synchronous method: it returns or throws. *)
Definition sanitizeUpdate (update : Partial.t) : Settled unit :=
  let prohibitedUpdates := ["host"] in
  sanitize_keys prohibitedUpdates (Partial.keys update).

(** A [throw] of a synchronous callee inside an async method rejects the
    method's promise. *)
Definition call {A} (r : Settled A) : Async A :=
  mkAsync (fun c => mkOutcome r [] c).

Definition update (_id : ObjectId) (update : Partial.t) : Async Msg :=
  call (sanitizeUpdate update);;
  updateOne _id update;;
  resolve (mkMsg "Event successfully updated!").

Definition delete (_id : ObjectId) : Async Msg :=
  deleteOne _id;;
  resolve (mkMsg "Event deleted successfully!").
End EventConcept.

(** ** LocationConcept *)

(** Values of a parsed JSON body, with JavaScript's [undefined] for what a
    property access may yield. *)
#[warnings="-register-all"]
Inductive JSValue :=
| JSUndefined
| JSNull
| JSBoolean (b : bool)
| JSNumber (n : Q)
| JSString (s : string)
| JSArray (items : list JSValue)
| JSObject (fields : list (string * JSValue)).

Module LocationConcept.
Fixpoint lookup_field (fields : list (string * JSValue)) (name : string) : JSValue :=
  match fields with
  | [] => JSUndefined
  | (k, v) :: fields' =>
      if bool_decide (k = name) then v else lookup_field fields' name
  end.

(** [v.name]: reading a property of [undefined] or [null] throws. *)
Definition prop (v : JSValue) (name : string) : Settled JSValue :=
  match v with
  | JSUndefined | JSNull =>
      Rejected (TypeError ("Cannot read properties of undefined or null (reading '"
                           +:+ name +:+ "')"))
  | JSObject fields => Fulfilled (lookup_field fields name)
  | JSArray items =>
      if bool_decide (name = "length")
      then Fulfilled (JSNumber (inject_Z (Z.of_nat (length items))))
      else Fulfilled JSUndefined
  | JSString s =>
      if bool_decide (name = "length")
      then Fulfilled (JSNumber (inject_Z (Z.of_nat (String.length s))))
      else Fulfilled JSUndefined
  | JSBoolean _ | JSNumber _ => Fulfilled JSUndefined
  end.

(** [v[0]]. *)
Definition first (v : JSValue) : Settled JSValue :=
  match v with
  | JSUndefined | JSNull =>
      Rejected (TypeError "Cannot read properties of undefined or null (reading '0')")
  | JSArray items => Fulfilled (nth 0 items JSUndefined)
  | JSObject fields => Fulfilled (lookup_field fields "0")
  | JSString s =>
      Fulfilled (match s with
                 | EmptyString => JSUndefined
                 | String a _ => JSString (String a EmptyString)
                 end)
  | JSBoolean _ | JSNumber _ => Fulfilled JSUndefined
  end.

(** [v === 0]. *)
Definition is_zero (v : JSValue) : bool :=
  match v with
  | JSNumber n => Qeq_bool n 0
  | _ => false
  end.

Definition andThen {A B} (r : Settled A) (k : A -> Settled B) : Settled B :=
  match r with
  | Fulfilled a => k a
  | Rejected e => Rejected e
  end.

Section Provider.
(** The environment: the configured key, URL encoding, and the provider
    answering a GET with a parsed JSON body. *)
Variable GOOGLE_API_KEY : option string.
Variable encodeURIComponent : string -> string.
Variable fetch_json : string -> JSValue.

Definition geocodingUrl (address : string) : string :=
  "https://maps.googleapis.com/maps/api/geocode/json?address="
  +:+ encodeURIComponent address +:+ "&key="
  +:+ default "undefined" GOOGLE_API_KEY.

Definition getAddressLocation (address : string) : Settled JSValue :=
  let results := fetch_json (geocodingUrl address) in
  andThen (prop results "results") (fun candidates =>
  andThen (prop candidates "length") (fun len =>
  if is_zero len then Rejected (NotFoundError "Address Not Found")
  else
    andThen (first candidates) (fun candidate =>
    andThen (prop candidate "geometry") (fun geometry =>
    prop geometry "location")))).
End Provider.
End LocationConcept.

(** ** Vocabulary of the properties *)

(** The four RSVP transitions, as requests against one event. *)
Inductive RsvpOp :=
| IndicateInterest (person : ObjectId)
| RemoveInterest (person : ObjectId)
| IndicateAttendance (person : ObjectId)
| RemoveAttendance (person : ObjectId).

Definition rsvp (_id : ObjectId) (op : RsvpOp) : Async Msg :=
  match op with
  | IndicateInterest person => EventConcept.indicateInterest person _id
  | RemoveInterest person => EventConcept.removeInterest person _id
  | IndicateAttendance person => EventConcept.indicateAttendance person _id
  | RemoveAttendance person => EventConcept.removeAttendance person _id
  end.

(** The collection after a sequence of requests, each made whatever the
    previous one answered. *)
Definition rsvp_seq (_id : ObjectId) (ops : list RsvpOp) (c : DocCollection) : DocCollection :=
  foldl (fun c op => db (run (rsvp _id op) c)) c ops.

(** No identity is in both RSVP lists. *)
Definition exclusive (e : EventDoc) : Prop :=
  ∀ p, ¬ (p ∈ interested e ∧ p ∈ attending e).

(** The geocoding provider's body [{ results: [...] }], a candidate
    [{ geometry: { location } }] and its [{ lat, lng }] pair. *)
Definition geocode_body (candidates : list JSValue) : JSValue :=
  JSObject [("results", JSArray candidates)].

Definition geocode_candidate (loc : JSValue) : JSValue :=
  JSObject [("geometry", JSObject [("location", loc)])].

Definition lat_lng (lat lng : Q) : JSValue :=
  JSObject [("lat", JSNumber lat); ("lng", JSNumber lng)].

(** The pair under the names [latitude] and [longitude]. *)
Definition latitude_longitude (lat lng : Q) : JSValue :=
  JSObject [("latitude", JSNumber lat); ("longitude", JSNumber lng)].

(** * Properties *)

(** ** JavaScript arrays and strings *)

Section ArrayFacts.
Context {A : Type} `{EqDecision A}.
Implicit Types (l : list A) (x : A).

Lemma includes_elem_of l x : JS.includes l x = true ↔ x ∈ l.
Proof.
  induction l as [|y l IH]; simpl.
  - split; [discriminate | by intros ?%elem_of_nil].
  - rewrite elem_of_cons. destruct (decide (y = x)) as [->|Hne].
    + split; auto.
    + rewrite IH. split; [auto | intros [->|]; [done | auto]].
Qed.

Lemma includes_not_elem_of l x : x ∉ l → JS.includes l x = false.
Proof.
  intros Hx. destruct (JS.includes l x) eqn:E; [|done].
  by apply includes_elem_of in E.
Qed.

Lemma indexOf_from_not_elem_of l x i : x ∉ l → JS.indexOf_from l x i = -1.
Proof.
  revert i. induction l as [|y l IH]; intros i Hx; simpl; [done|].
  apply not_elem_of_cons in Hx as [Hne Hx].
  destruct (decide (y = x)); [congruence | by apply IH].
Qed.

Lemma indexOf_from_elem_of l x i :
  x ∈ l → i ≤ JS.indexOf_from l x i < i + Z.of_nat (length l).
Proof.
  revert i. induction l as [|y l IH]; intros i Hx; simpl.
  - by apply elem_of_nil in Hx.
  - destruct (decide (y = x)) as [->|Hne]; [lia|].
    apply elem_of_cons in Hx as [->|Hx]; [done|].
    specialize (IH (i + 1) Hx). lia.
Qed.

Lemma indexOf_not_elem_of l x : x ∉ l → JS.indexOf l x = -1.
Proof. apply indexOf_from_not_elem_of. Qed.

Lemma indexOf_elem_of l x :
  x ∈ l → 0 ≤ JS.indexOf l x < Z.of_nat (length l).
Proof. intros Hx. apply (indexOf_from_elem_of l x 0 Hx). Qed.

(** [splice(-1, 1)] drops the last element, whatever it is. *)
Lemma splice_minus_one l : JS.splice l (-1) 1 = removelast l.
Proof.
  rewrite removelast_firstn_len. unfold JS.splice.
  change (-1 <? 0) with true. cbv iota. destruct l as [|y l]; [done|].
  set (n := length (y :: l)).
  assert (0 < Z.of_nat n) by (subst n; simpl; lia).
  rewrite (Z.max_l _ 0), (Z.max_l 1 0), Z.min_l by lia.
  replace (Z.to_nat (Z.of_nat n + -1 + 1)) with n by lia.
  replace (Z.to_nat (Z.of_nat n + -1)) with (Nat.pred n) by lia.
  subst n. by rewrite drop_all, app_nil_r.
Qed.

(** [splice(i, 1)] with [i] at or past the end removes nothing. *)
Lemma splice_past_end l i : Z.of_nat (length l) ≤ i → JS.splice l i 1 = l.
Proof.
  intros Hi. unfold JS.splice.
  destruct (i <? 0) eqn:E; [apply Z.ltb_lt in E; lia|].
  rewrite Z.min_r by lia. rewrite Z.sub_diag, Z.min_r by lia.
  rewrite Z.add_0_r, Nat2Z.id, take_ge, drop_all, app_nil_r by lia. done.
Qed.

(** [splice(i, 1)] inside the array removes exactly the element at [i]. *)
Lemma splice_inside l1 x l2 :
  JS.splice (l1 ++ x :: l2) (Z.of_nat (length l1)) 1 = l1 ++ l2.
Proof.
  unfold JS.splice.
  destruct (Z.of_nat (length l1) <? 0) eqn:E; [apply Z.ltb_lt in E; lia|].
  rewrite length_app. simpl length.
  rewrite Z.min_l, Z.max_l, Z.min_l by lia.
  rewrite Nat2Z.id.
  replace (Z.to_nat (Z.of_nat (length l1) + 1)) with (length l1 + 1)%nat by lia.
  rewrite take_app_length.
  replace (l1 ++ x :: l2) with ((l1 ++ [x]) ++ l2) by by rewrite <- app_assoc.
  rewrite drop_app_length'; [done|]. rewrite length_app. simpl. lia.
Qed.

Lemma indexOf_from_first l1 x l2 i :
  x ∉ l1 → JS.indexOf_from (l1 ++ x :: l2) x i = i + Z.of_nat (length l1).
Proof.
  revert i. induction l1 as [|y l1 IH]; intros i Hx; simpl.
  - rewrite decide_True by done. lia.
  - apply not_elem_of_cons in Hx as [Hne Hx].
    rewrite decide_False by congruence. rewrite IH by done. lia.
Qed.

(** [indexOf] finds the first occurrence. *)
Lemma indexOf_first l1 x l2 :
  x ∉ l1 → JS.indexOf (l1 ++ x :: l2) x = Z.of_nat (length l1).
Proof. intros Hx. unfold JS.indexOf. by rewrite indexOf_from_first. Qed.
End ArrayFacts.

(** ** ObjectId objects *)

Lemma argument_not_deserialised field index l p :
  argument p ∉ deserialise_from field index l.
Proof.
  revert index. induction l as [|o l IH]; intros index; simpl.
  - apply not_elem_of_nil.
  - apply not_elem_of_cons. split; [discriminate | apply IH].
Qed.

(** The caller's object is never an element of an array [readOne] built:
    [includes] answers [false] and [indexOf] answers [-1], whatever the
    identities are. *)
Lemma includes_deserialise field l p :
  JS.includes (deserialise field l) (argument p) = false.
Proof. apply includes_not_elem_of, argument_not_deserialised. Qed.

Lemma indexOf_deserialise field l p :
  JS.indexOf (deserialise field l) (argument p) = -1.
Proof. apply indexOf_not_elem_of, argument_not_deserialised. Qed.

Lemma serialise_deserialise_from field index l :
  serialise (deserialise_from field index l) = l.
Proof.
  revert index. induction l as [|o l IH]; intros index; [done|].
  unfold serialise in *. simpl. by rewrite IH.
Qed.

Lemma serialise_deserialise field l : serialise (deserialise field l) = l.
Proof. apply serialise_deserialise_from. Qed.

Lemma serialise_push l o : serialise (JS.push l o) = serialise l ++ [oid o].
Proof. unfold serialise, JS.push. by rewrite fmap_app. Qed.

Lemma serialise_splice l start deleteCount :
  serialise (JS.splice l start deleteCount)
  = JS.splice (serialise l) start deleteCount.
Proof.
  unfold serialise, JS.splice.
  by rewrite fmap_app, fmap_take, fmap_drop, length_fmap.
Qed.

Lemma prefix_refl (s : string) : String.prefix s s = true.
Proof.
  induction s as [|a s IH]; simpl; [done|].
  destruct (Ascii.ascii_dec a a); [done | congruence].
Qed.

(** Every string includes itself, the empty string too. *)
Lemma str_includes_self (s : string) : JS.str_includes s s = true.
Proof. destruct s; [reflexivity|]. cbn [JS.str_includes]. by rewrite prefix_refl. Qed.

(** ** Running the operations on a stored event *)

Lemma lookup_updateOne (c : DocCollection) _id ev u :
  c !! _id = Some ev → alter (merge u) _id c !! _id = Some (merge u ev).
Proof. intros H. by rewrite lookup_alter_eq, H. Qed.

Section Run.
Variable c : DocCollection.
Variable _id : ObjectId.
Variable ev : EventDoc.
Hypothesis Hev : c !! _id = Some ev.

(** Unfold an operation, read the stored event, and split on what its
    guards find. *)
Ltac run_step :=
  first [ rewrite Hev
        | rewrite includes_deserialise
        | rewrite indexOf_deserialise
        | case_bool_decide
        | rewrite str_includes_self ];
  simpl.
Ltac run_on_event :=
  cbv zeta; simpl; unfold toString; repeat run_step;
  rewrite ?serialise_push, ?serialise_splice, ?serialise_deserialise,
    ?splice_minus_one;
  try done.

Lemma run_isNotHost person :
  settled (run (EventConcept.isNotHost person _id) c)
  = if bool_decide (host ev = person) then Fulfilled tt
    else Rejected (NotAllowedError "Person is a host.").
Proof. run_on_event. Qed.

(** On a stored event the two positive membership guards reject and the two
    negative ones pass, whoever the person is. *)
Lemma run_isInterested person :
  settled (run (EventConcept.isInterested person _id) c)
  = Rejected (NotFoundError "Person not interested in event.").
Proof. run_on_event. Qed.

Lemma run_isNotInterested person :
  settled (run (EventConcept.isNotInterested person _id) c) = Fulfilled tt.
Proof. run_on_event. Qed.

Lemma run_isAttending person :
  settled (run (EventConcept.isAttending person _id) c)
  = Rejected (NotFoundError "Person not attending event.").
Proof. run_on_event. Qed.

Lemma run_isNotAttending person :
  settled (run (EventConcept.isNotAttending person _id) c) = Fulfilled tt.
Proof. run_on_event. Qed.

Lemma run_indicateInterest person :
  let r := run (EventConcept.indicateInterest person _id) c in
  settled r = Fulfilled (mkMsg "Successfully indicated interest in event.")
  ∧ db r = alter (merge (EventConcept.rsvp_fields
                    (interested ev ++ [person]) (attending ev))) _id c.
Proof. run_on_event. Qed.

Lemma run_removeInterest person :
  let r := run (EventConcept.removeInterest person _id) c in
  settled r = Fulfilled (mkMsg "Successfully removed interest in event.")
  ∧ db r = alter (merge (EventConcept.rsvp_fields
                    (removelast (interested ev)) (attending ev))) _id c.
Proof. run_on_event. Qed.

Lemma run_indicateAttendance person :
  let r := run (EventConcept.indicateAttendance person _id) c in
  settled r = Fulfilled (mkMsg "Successfully indicated attendance for event.")
  ∧ db r = alter (merge (EventConcept.rsvp_fields
                    (interested ev) (attending ev ++ [person]))) _id c.
Proof. run_on_event. Qed.

Lemma run_removeAttendance person :
  let r := run (EventConcept.removeAttendance person _id) c in
  settled r = Fulfilled (mkMsg "Successfully removed attendance for event.")
  ∧ db r = alter (merge (EventConcept.rsvp_fields
                    (interested ev) (attending ev ++ [person]))) _id c.
Proof. run_on_event. Qed.

(** The rejections nobody awaits in [removeInterest]: those of its two
    guards. *)
Lemma unhandled_removeInterest person :
  unhandled (run (EventConcept.removeInterest person _id) c)
  = (if bool_decide (host ev = person) then []
     else [NotAllowedError "Person is a host."])
    ++ [NotFoundError "Person not interested in event."].
Proof. run_on_event. Qed.

Lemma unhandled_indicateInterest person :
  unhandled (run (EventConcept.indicateInterest person _id) c)
  = if bool_decide (host ev = person) then []
    else [NotAllowedError "Person is a host."].
Proof. run_on_event. Qed.

Lemma run_addTopic topic :
  run (EventConcept.addTopic _id topic) c
  = mkOutcome (Rejected (NotAllowedError "Topic already exists.")) [] c.
Proof. run_on_event. Qed.

Lemma run_removeTopic topic :
  let r := run (EventConcept.removeTopic _id topic) c in
  settled r = Fulfilled (mkMsg "Successfully removed topic from event.")
  ∧ db r = alter (merge (EventConcept.topics_field
                    (JS.splice (topics ev) (JS.indexOf (topics ev) topic) 1))) _id c.
Proof. run_on_event. Qed.

Lemma run_removeAmenity amenity :
  let r := run (EventConcept.removeAmenity _id amenity) c in
  settled r = Fulfilled (mkMsg "Successfully removed amenity from event.")
  ∧ db r = alter (merge (EventConcept.amenities_field
                    (JS.splice (amenities ev) (JS.indexOf (amenities ev) amenity) 1))) _id c.
Proof. run_on_event. Qed.

Lemma run_removeAccommodation accommodation :
  let r := run (EventConcept.removeAccommodation _id accommodation) c in
  settled r = Fulfilled (mkMsg "Successfully removed accommodation from event.")
  ∧ db r = alter (merge (EventConcept.accommodations_field
                    (JS.splice (accommodations ev)
                       (JS.indexOf (accommodations ev) accommodation) 1))) _id c.
Proof. run_on_event. Qed.
End Run.

Lemma run_create (c : DocCollection) h t d l a cap :
  let r := run (EventConcept.create h t d l a cap) c in
  let e := fresh_string "event" c in
  let ev := mkEventDoc e h t d l a cap [] [] [] [] [] in
  settled r = Fulfilled (mkCreated "Event successfully created!" (Some ev))
  ∧ db r = <[e := ev]> c.
Proof. cbv zeta. simpl. by rewrite lookup_insert_eq. Qed.

(** Removing a tag that is present takes out its first occurrence only. *)
Lemma splice_indexOf_present {A} `{EqDecision A} (l1 l2 : list A) x :
  x ∉ l1 → JS.splice (l1 ++ x :: l2) (JS.indexOf (l1 ++ x :: l2) x) 1 = l1 ++ l2.
Proof. intros Hx. by rewrite indexOf_first, splice_inside. Qed.

(** Removing a tag that is absent takes out the last entry. *)
Lemma splice_indexOf_absent {A} `{EqDecision A} (l : list A) x :
  x ∉ l → JS.splice l (JS.indexOf l x) 1 = removelast l.
Proof. intros Hx. by rewrite indexOf_not_elem_of, splice_minus_one. Qed.

(** ** RSVP transitions *)

(** C1 (fails on the code): on a freshly created event,
    [indicateInterest(p, e)] followed by [indicateAttendance(p, e)] leaves
    [p] in [interested] and in [attending]: [indicateAttendance] appends [p]
    to [attending] and takes nothing out of [interested], because
    [interested.indexOf(person)] looks for the caller's object among the
    objects [readOne] built and answers [-1] (and the splice it guards is on
    [attending]).  So a sequence of RSVP operations puts one identity in
    both lists. *)
Theorem C1_interest_then_attendance_in_both_lists :
  (∀ (c : DocCollection) h t d l a cap p,
      let e := fresh_string "event" c in
      let c1 := db (run (EventConcept.create h t d l a cap) c) in
      ∃ ev, rsvp_seq e [IndicateInterest p; IndicateAttendance p] c1 !! e = Some ev
            ∧ interested ev = [p] ∧ attending ev = [p] ∧ ¬ exclusive ev)
  ∧ (∃ ops ev,
        rsvp_seq "event" ops
          (db (run (EventConcept.create "h" "party" "" "" 18 50) ∅)) !! "event"
        = Some ev
        ∧ ¬ exclusive ev).
Proof.
  split.
  - intros c h t d l a cap p e c1.
    destruct (run_create c h t d l a cap) as [_ Hc1]. fold e c1 in Hc1.
    set (ev0 := mkEventDoc e h t d l a cap [] [] [] [] []) in Hc1.
    assert (H0 : c1 !! e = Some ev0) by (rewrite Hc1; apply lookup_insert_eq).
    unfold rsvp_seq. cbn [foldl rsvp].
    destruct (run_indicateInterest c1 e ev0 H0 p) as [_ ->].
    set (c2 := alter _ e c1).
    assert (H1 : c2 !! e = Some (mkEventDoc e h t d l a cap [] [] [] [p] [])).
    { subst c2. by rewrite (lookup_updateOne _ _ _ _ H0). }
    destruct (run_indicateAttendance c2 e _ H1 p) as [_ ->].
    rewrite (lookup_updateOne _ _ _ _ H1). eexists; split; [done|].
    split; [done|]. split; [done|].
    intros Hex. apply (Hex p). split; apply list_elem_of_In; simpl; auto.
  - exists [IndicateInterest "q"; IndicateInterest "p"; IndicateAttendance "p"].
    eexists. split; [vm_compute; reflexivity|].
    intros Hex. apply (Hex "p"). split; apply list_elem_of_In; simpl; auto.
Qed.

(** C2 (fails on the code): [removeAttendance(p, e)] never fails with
    NotFound: its [isAttending] guard does reject when [p] is not attending,
    but it is not awaited.  And the call does not remove [p]: it leaves
    [interested] as it was and appends [p] to [attending] (when [p] is not in
    [interested], the result is exactly [attending] followed by [p]). *)
Theorem C2_removeAttendance_appends (c : DocCollection) _id ev person :
  c !! _id = Some ev →
  let r := run (EventConcept.removeAttendance person _id) c in
  settled r = Fulfilled (mkMsg "Successfully removed attendance for event.")
  ∧ (person ∉ attending ev →
     settled (run (EventConcept.isAttending person _id) c)
     = Rejected (NotFoundError "Person not attending event."))
  ∧ ∃ ev', db r !! _id = Some ev'
           ∧ interested ev' = interested ev
           ∧ (person ∉ interested ev → attending ev' = attending ev ++ [person]).
Proof.
  intros Hev r. destruct (run_removeAttendance c _id ev Hev person) as [Hs Hdb].
  fold r in Hs, Hdb. split; [done|]. split.
  { intros _. apply (run_isAttending c _id ev Hev). }
  rewrite Hdb, (lookup_updateOne _ _ _ _ Hev). eexists; split; [done|].
  split; done.
Qed.

Lemma witness_C2 :
  let ev := mkEventDoc "e" "h" "party" "" "" 18 50 [] [] [] [] ["p"] in
  let c : DocCollection := {["e" := ev]} in
  let r := run (EventConcept.removeAttendance "p" "e") c in
  settled r = Fulfilled (mkMsg "Successfully removed attendance for event.")
  ∧ ("p" ∉ attending ev →
     settled (run (EventConcept.isAttending "p" "e") c)
     = Rejected (NotFoundError "Person not attending event."))
  ∧ ∃ ev', db r !! "e" = Some ev'
           ∧ interested ev' = interested ev
           ∧ ("p" ∉ interested ev → attending ev' = attending ev ++ ["p"]).
Proof.
  intros ev c.
  apply (C2_removeAttendance_appends c "e" ev "p").
  vm_compute. reflexivity.
Defined.

(** C3 (fails on the code): called by the event's host, none of the four RSVP
    transitions fails; [isNotHost] is not awaited and, for the host, does not
    even reject.  [indicateInterest] then appends the host to
    [interested]. *)
Theorem C3_host_rsvp_goes_through (c : DocCollection) _id ev :
  c !! _id = Some ev →
  let h := host ev in
  (∀ op, op ∈ [IndicateInterest h; RemoveInterest h;
               IndicateAttendance h; RemoveAttendance h] →
         ∃ m, settled (run (rsvp _id op) c) = Fulfilled m)
  ∧ settled (run (EventConcept.isNotHost h _id) c) = Fulfilled tt
  ∧ ∃ ev', db (run (EventConcept.indicateInterest h _id) c) !! _id = Some ev'
           ∧ interested ev' = interested ev ++ [h].
Proof.
  intros Hev h. split; [|split].
  - intros op Hop. repeat (apply elem_of_cons in Hop as [->|Hop]); simpl rsvp.
    + eexists. apply (run_indicateInterest c _id ev Hev h).
    + eexists. apply (run_removeInterest c _id ev Hev h).
    + eexists. apply (run_indicateAttendance c _id ev Hev h).
    + eexists. apply (run_removeAttendance c _id ev Hev h).
    + by apply elem_of_nil in Hop.
  - rewrite (run_isNotHost c _id ev Hev h). by rewrite bool_decide_eq_true_2.
  - destruct (run_indicateInterest c _id ev Hev h) as [_ ->].
    rewrite (lookup_updateOne _ _ _ _ Hev). eexists; split; done.
Qed.

Lemma witness_C3 :
  let ev := mkEventDoc "e" "h" "party" "" "" 18 50 [] [] [] [] [] in
  let c : DocCollection := {["e" := ev]} in
  (∀ op, op ∈ [IndicateInterest "h"; RemoveInterest "h";
               IndicateAttendance "h"; RemoveAttendance "h"] →
         ∃ m, settled (run (rsvp "e" op) c) = Fulfilled m)
  ∧ settled (run (EventConcept.isNotHost "h" "e") c) = Fulfilled tt
  ∧ ∃ ev', db (run (EventConcept.indicateInterest "h" "e") c) !! "e" = Some ev'
           ∧ interested ev' = interested ev ++ ["h"].
Proof.
  intros ev c. apply (C3_host_rsvp_goes_through c "e" ev).
  vm_compute. reflexivity.
Defined.

(** C4 (fails on the code): for a person not in [interested],
    [removeInterest(p, e)] does not fail: the NotFound of [isInterested] is
    raised in a promise nobody awaits.  The call then persists [interested]
    without its last entry. *)
Theorem C4_removeInterest_absent_mutates (c : DocCollection) _id ev person :
  c !! _id = Some ev →
  person ∉ interested ev →
  let r := run (EventConcept.removeInterest person _id) c in
  settled r = Fulfilled (mkMsg "Successfully removed interest in event.")
  ∧ NotFoundError "Person not interested in event." ∈ unhandled r
  ∧ ∃ ev', db r !! _id = Some ev'
           ∧ interested ev' = removelast (interested ev).
Proof.
  intros Hev Hp r. destruct (run_removeInterest c _id ev Hev person) as [Hs Hdb].
  fold r in Hs, Hdb. split; [done|]. split.
  - subst r. rewrite (unhandled_removeInterest c _id ev Hev).
    apply elem_of_app. right. apply list_elem_of_In. simpl. auto.
  - rewrite Hdb, (lookup_updateOne _ _ _ _ Hev). eexists; split; done.
Qed.

Lemma witness_C4 :
  let ev := mkEventDoc "e" "h" "party" "" "" 18 50 [] [] [] ["q"] [] in
  let r := run (EventConcept.removeInterest "p" "e") {["e" := ev]} in
  settled r = Fulfilled (mkMsg "Successfully removed interest in event.")
  ∧ NotFoundError "Person not interested in event." ∈ unhandled r
  ∧ ∃ ev', db r !! "e" = Some ev' ∧ interested ev' = removelast ["q"].
Proof.
  intros ev.
  apply (C4_removeInterest_absent_mutates {["e" := ev]} "e" ev "p").
  - vm_compute. reflexivity.
  - simpl. intros H. apply list_elem_of_In in H. simpl in H.
    destruct H as [H|[]]. discriminate H.
Defined.

(** ** Tag lists *)

(** C5 (fails on the code): [addTopic(e, t)] on an existing event is rejected
    with NotAllowed on the first call already, whatever [t] and the topics
    are, because the guard asks whether the string [t] includes itself; the
    collection is left as it was, so a second call answers the same and [t]
    is never added. *)
Theorem C5_addTopic_always_rejected (c : DocCollection) _id ev topic :
  c !! _id = Some ev →
  let r1 := run (EventConcept.addTopic _id topic) c in
  let r2 := run (EventConcept.addTopic _id topic) (db r1) in
  settled r1 = Rejected (NotAllowedError "Topic already exists.")
  ∧ db r1 = c
  ∧ settled r2 = Rejected (NotAllowedError "Topic already exists.")
  ∧ db r2 !! _id = Some ev.
Proof.
  intros Hev r1 r2.
  assert (H1 : r1 = mkOutcome (Rejected (NotAllowedError "Topic already exists.")) [] c)
    by apply (run_addTopic c _id ev Hev).
  assert (H2 : r2 = mkOutcome (Rejected (NotAllowedError "Topic already exists.")) [] c).
  { subst r2. rewrite H1. cbn [db]. apply (run_addTopic c _id ev Hev). }
  rewrite H2, H1. cbn [settled db]. done.
Qed.

Lemma witness_C5 :
  let ev := mkEventDoc "e" "h" "party" "" "" 18 50 [] [] [] [] [] in
  let c : DocCollection := {["e" := ev]} in
  let r1 := run (EventConcept.addTopic "e" "music") c in
  let r2 := run (EventConcept.addTopic "e" "music") (db r1) in
  settled r1 = Rejected (NotAllowedError "Topic already exists.")
  ∧ db r1 = c
  ∧ settled r2 = Rejected (NotAllowedError "Topic already exists.")
  ∧ db r2 !! "e" = Some ev.
Proof.
  intros ev c. apply (C5_addTopic_always_rejected c "e" ev "music").
  vm_compute. reflexivity.
Defined.

(** C6 (fails on the code): when the tag is absent from the collection,
    [removeTopic], [removeAmenity] and [removeAccommodation] do not fail: the
    guard asks whether the tag includes itself, [indexOf] answers [-1], and
    [splice(-1, 1)] removes the last entry of the list. *)
Theorem C6_remove_absent_tag_drops_last (c : DocCollection) _id ev tag :
  c !! _id = Some ev →
  (tag ∉ topics ev →
   let r := run (EventConcept.removeTopic _id tag) c in
   settled r = Fulfilled (mkMsg "Successfully removed topic from event.")
   ∧ ∃ ev', db r !! _id = Some ev' ∧ topics ev' = removelast (topics ev))
  ∧ (tag ∉ amenities ev →
     let r := run (EventConcept.removeAmenity _id tag) c in
     settled r = Fulfilled (mkMsg "Successfully removed amenity from event.")
     ∧ ∃ ev', db r !! _id = Some ev' ∧ amenities ev' = removelast (amenities ev))
  ∧ (tag ∉ accommodations ev →
     let r := run (EventConcept.removeAccommodation _id tag) c in
     settled r = Fulfilled (mkMsg "Successfully removed accommodation from event.")
     ∧ ∃ ev', db r !! _id = Some ev'
              ∧ accommodations ev' = removelast (accommodations ev)).
Proof.
  intros Hev. split; [|split]; intros Htag r.
  - destruct (run_removeTopic c _id ev Hev tag) as [Hs Hdb].
    fold r in Hs, Hdb. split; [done|].
    rewrite Hdb, (lookup_updateOne _ _ _ _ Hev). eexists; split; [done|].
    simpl. by apply splice_indexOf_absent.
  - destruct (run_removeAmenity c _id ev Hev tag) as [Hs Hdb].
    fold r in Hs, Hdb. split; [done|].
    rewrite Hdb, (lookup_updateOne _ _ _ _ Hev). eexists; split; [done|].
    simpl. by apply splice_indexOf_absent.
  - destruct (run_removeAccommodation c _id ev Hev tag) as [Hs Hdb].
    fold r in Hs, Hdb. split; [done|].
    rewrite Hdb, (lookup_updateOne _ _ _ _ Hev). eexists; split; [done|].
    simpl. by apply splice_indexOf_absent.
Qed.

Lemma witness_C6 :
  let ev := mkEventDoc "e" "h" "party" "" "" 18 50 ["music"] ["wifi"] ["ramp"] [] [] in
  let c : DocCollection := {["e" := ev]} in
  let r := run (EventConcept.removeAmenity "e" "pool") c in
  settled r = Fulfilled (mkMsg "Successfully removed amenity from event.")
  ∧ ∃ ev', db r !! "e" = Some ev' ∧ amenities ev' = removelast ["wifi"].
Proof.
  intros ev c.
  assert (Hev : c !! "e" = Some ev) by (vm_compute; reflexivity).
  apply (proj1 (proj2 (C6_remove_absent_tag_drops_last c "e" ev "pool" Hev))).
  simpl. intros H. apply list_elem_of_In in H. simpl in H.
  destruct H as [H|[]]. discriminate H.
Defined.

(** When the tag is present, the three removals take out its first occurrence
    and leave every other entry in place. *)
Lemma remove_present_tag (c : DocCollection) _id ev tag l1 l2 :
  c !! _id = Some ev →
  tag ∉ l1 →
  (topics ev = l1 ++ tag :: l2 →
   ∃ ev', db (run (EventConcept.removeTopic _id tag) c) !! _id = Some ev'
          ∧ topics ev' = l1 ++ l2)
  ∧ (amenities ev = l1 ++ tag :: l2 →
     ∃ ev', db (run (EventConcept.removeAmenity _id tag) c) !! _id = Some ev'
            ∧ amenities ev' = l1 ++ l2)
  ∧ (accommodations ev = l1 ++ tag :: l2 →
     ∃ ev', db (run (EventConcept.removeAccommodation _id tag) c) !! _id = Some ev'
            ∧ accommodations ev' = l1 ++ l2).
Proof.
  intros Hev Htag. split; [|split]; intros Hl.
  - destruct (run_removeTopic c _id ev Hev tag) as [_ ->].
    rewrite (lookup_updateOne _ _ _ _ Hev). eexists; split; [done|].
    simpl. rewrite Hl. by apply splice_indexOf_present.
  - destruct (run_removeAmenity c _id ev Hev tag) as [_ ->].
    rewrite (lookup_updateOne _ _ _ _ Hev). eexists; split; [done|].
    simpl. rewrite Hl. by apply splice_indexOf_present.
  - destruct (run_removeAccommodation c _id ev Hev tag) as [_ ->].
    rewrite (lookup_updateOne _ _ _ _ Hev). eexists; split; [done|].
    simpl. rewrite Hl. by apply splice_indexOf_present.
Qed.

(** ** update and delete *)

Lemma sanitize_keys_skip {A} name (field : option A) ks :
  name ≠ "host" →
  EventConcept.sanitize_keys ["host"] (Partial.key name field ++ ks)
  = EventConcept.sanitize_keys ["host"] ks.
Proof.
  intros Hne. destruct field; [|done]. simpl.
  by rewrite decide_False by congruence.
Qed.

Lemma host_not_key u : "host" ∉ Partial.keys u ↔ Partial.host u = None.
Proof.
  unfold Partial.keys. destruct (Partial.host u); simpl.
  - split; [|done]. intros H. destruct H. apply elem_of_cons. by left.
  - split; [done|]. intros _ H.
    repeat (apply elem_of_app in H as [H|H];
            [match type of H with
             | _ ∈ Partial.key _ ?f =>
                 destruct f; simpl in H;
                 [apply elem_of_cons in H as [H|H];
                  [discriminate H | by apply elem_of_nil in H]
                 | by apply elem_of_nil in H]
             end|]).
    match type of H with
    | _ ∈ Partial.key _ ?f =>
        destruct f; simpl in H;
        [apply elem_of_cons in H as [H|H];
         [discriminate H | by apply elem_of_nil in H]
        | by apply elem_of_nil in H]
    end.
Qed.

Lemma sanitizeUpdate_without_host u :
  Partial.host u = None → EventConcept.sanitizeUpdate u = Fulfilled tt.
Proof.
  intros Hh. unfold EventConcept.sanitizeUpdate, Partial.keys.
  rewrite Hh. cbn [Partial.key app].
  rewrite !sanitize_keys_skip by discriminate.
  by destruct (Partial.attending u).
Qed.

Lemma sanitizeUpdate_with_host u X :
  Partial.host u = Some X →
  EventConcept.sanitizeUpdate u
  = Rejected (NotAllowedError "Cannot update 'host' field!").
Proof.
  intros Hh. unfold EventConcept.sanitizeUpdate, Partial.keys.
  rewrite Hh. reflexivity.
Qed.

(** C7: [update(id, u)] with [host] among the keys of [u], whatever its value
    (in particular [u = {host: X}]), is rejected with the NotAllowed error of
    the forbidden field, nothing is left unhandled and the collection is
    untouched. *)
Theorem C7_update_host_forbidden (c : DocCollection) _id u X :
  Partial.host u = Some X →
  run (EventConcept.update _id u) c
  = mkOutcome (Rejected (NotAllowedError "Cannot update 'host' field!")) [] c.
Proof.
  intros Hh. unfold EventConcept.update. simpl.
  by rewrite (sanitizeUpdate_with_host u X Hh).
Qed.

Lemma witness_C7 :
  let ev := mkEventDoc "e" "h" "party" "" "" 18 50 [] [] [] [] [] in
  let c : DocCollection := {["e" := ev]} in
  let u := Partial.mk (Some "x") None None None None None None None None None None in
  run (EventConcept.update "e" u) c
  = mkOutcome (Rejected (NotAllowedError "Cannot update 'host' field!")) [] c.
Proof.
  intros ev c u. apply (C7_update_host_forbidden c "e" u "x"). reflexivity.
Defined.

(** C8 (as stated, fails): on an id that resolves to no record, neither
    [update] with an empty partial nor [delete] fails with NotFound; both
    answer with their success message. *)
Lemma C8_missing_id_counterexample :
  settled (run (EventConcept.update "nope" Partial.empty) ∅)
  = Fulfilled (mkMsg "Event successfully updated!")
  ∧ settled (run (EventConcept.delete "nope") ∅)
    = Fulfilled (mkMsg "Event deleted successfully!")
  ∧ ¬ (∃ m, settled (run (EventConcept.update "nope" Partial.empty) ∅)
            = Rejected (NotFoundError m))
  ∧ ¬ (∃ m, settled (run (EventConcept.delete "nope") ∅)
            = Rejected (NotFoundError m)).
Proof.
  repeat split; try (vm_compute; reflexivity);
    intros [m H]; vm_compute in H; discriminate H.
Qed.

(** C8 (amended): for an id that resolves to no record, [update(id, u)]
    without the [host] key and [delete(id)] are fulfilled with their success
    messages and leave the collection as it was; neither looks the record
    up. *)
Theorem C8_missing_id_succeeds (c : DocCollection) _id u :
  c !! _id = None →
  (Partial.host u = None →
   run (EventConcept.update _id u) c
   = mkOutcome (Fulfilled (mkMsg "Event successfully updated!")) [] c)
  ∧ run (EventConcept.delete _id) c
    = mkOutcome (Fulfilled (mkMsg "Event deleted successfully!")) [] c.
Proof.
  intros Hid. split.
  - intros Hh. unfold EventConcept.update. simpl.
    rewrite (sanitizeUpdate_without_host u Hh). simpl.
    f_equal. apply map_eq. intros j.
    destruct (decide (_id = j)) as [<-|Hne].
    + by rewrite lookup_alter_eq, Hid.
    + by rewrite lookup_alter_ne.
  - unfold EventConcept.delete. simpl. f_equal. by apply delete_id.
Qed.

Lemma witness_C8 :
  let ev := mkEventDoc "e" "h" "party" "" "" 18 50 [] [] [] [] [] in
  let c : DocCollection := {["e" := ev]} in
  let u := EventConcept.topics_field ["music"] in
  run (EventConcept.update "nope" u) c
  = mkOutcome (Fulfilled (mkMsg "Event successfully updated!")) [] c
  ∧ run (EventConcept.delete "nope") c
    = mkOutcome (Fulfilled (mkMsg "Event deleted successfully!")) [] c.
Proof.
  intros ev c u.
  assert (Hid : c !! "nope" = None) by (vm_compute; reflexivity).
  destruct (C8_missing_id_succeeds c "nope" u Hid) as [Hu Hd].
  split; [apply Hu; reflexivity | exact Hd].
Defined.

(** C10: a partial whose keys do not include [host] passes [sanitizeUpdate],
    also when [interested] or [attending] are among them, so [update] is
    fulfilled for every id; on a stored event it stores the merge, so the
    RSVP lists of the record are exactly the ones given, with none of the
    RSVP guards consulted. *)
Theorem C10_update_overwrites_rsvp_lists u :
  "host" ∉ Partial.keys u →
  EventConcept.sanitizeUpdate u = Fulfilled tt
  ∧ (∀ (c : DocCollection) _id,
        settled (run (EventConcept.update _id u) c)
        = Fulfilled (mkMsg "Event successfully updated!"))
  ∧ (∀ (c : DocCollection) _id ev,
        c !! _id = Some ev →
        db (run (EventConcept.update _id u) c) !! _id = Some (merge u ev)
        ∧ (∀ l, Partial.interested u = Some l → interested (merge u ev) = l)
        ∧ (∀ l, Partial.attending u = Some l → attending (merge u ev) = l)).
Proof.
  intros Hh%host_not_key.
  pose proof (sanitizeUpdate_without_host u Hh) as Hs.
  split; [done|]. split.
  - intros c _id. unfold EventConcept.update. simpl. by rewrite Hs.
  - intros c _id ev Hev. unfold EventConcept.update. simpl. rewrite Hs. simpl.
    split; [by apply lookup_updateOne|].
    split; intros l Hl; by rewrite Hl.
Qed.

Lemma witness_C10 :
  let ev := mkEventDoc "e" "h" "party" "" "" 18 50 [] [] [] [] [] in
  let c : DocCollection := {["e" := ev]} in
  let u := EventConcept.rsvp_fields ["h"; "p"] ["p"] in
  EventConcept.sanitizeUpdate u = Fulfilled tt
  ∧ settled (run (EventConcept.update "e" u) c)
    = Fulfilled (mkMsg "Event successfully updated!")
  ∧ (∃ ev', db (run (EventConcept.update "e" u) c) !! "e" = Some ev'
            ∧ interested ev' = ["h"; "p"] ∧ attending ev' = ["p"]).
Proof.
  intros ev c u.
  assert (Hh : "host" ∉ Partial.keys u)
    by (apply (proj2 (host_not_key u)); reflexivity).
  destruct (C10_update_overwrites_rsvp_lists u Hh) as (Hs & Hok & Hdb).
  split; [exact Hs|]. split; [apply Hok|].
  destruct (Hdb c "e" ev) as (Hl & Hi & Ha); [vm_compute; reflexivity|].
  exists (merge u ev). split; [exact Hl|].
  split; [apply Hi | apply Ha]; reflexivity.
Defined.

(** ** Address lookup *)

Lemma prop_not_NotFound v name m :
  LocationConcept.prop v name ≠ Rejected (NotFoundError m).
Proof. destruct v; simpl; try case_bool_decide; discriminate. Qed.

Lemma first_not_NotFound v m :
  LocationConcept.first v ≠ Rejected (NotFoundError m).
Proof. destruct v; simpl; discriminate. Qed.

Lemma length_is_zero (items : list JSValue) :
  LocationConcept.is_zero (JSNumber (inject_Z (Z.of_nat (length items))))
  = bool_decide (items = []).
Proof. by destruct items. Qed.

(** C9 (as stated, fails): for the stub with the single result lat=37.42,
    lng=-122.08 the lookup does not return an object with the keys
    [latitude] and [longitude]. *)
Lemma C9_latitude_longitude_counterexample :
  LocationConcept.getAddressLocation None (fun s => s)
    (fun _ => geocode_body [geocode_candidate (lat_lng (3742 # 100) (-12208 # 100))])
    "1600 Amphitheatre Parkway"
  ≠ Fulfilled (latitude_longitude (3742 # 100) (-12208 # 100)).
Proof. vm_compute. intros H. discriminate H. Qed.

(** C9 (amended): when the provider's body has an array under [results], the
    lookup fails with NotFound exactly when that array is empty, and
    otherwise returns what the first candidate has under
    [geometry.location], unchanged: an object with the provider's keys [lat]
    and [lng]. *)
Theorem C9_getAddressLocation_first_candidate
    (GOOGLE_API_KEY : option string) (encodeURIComponent : string → string)
    (fetch_json : string → JSValue) (address : string) (candidates : list JSValue) :
  LocationConcept.prop
    (fetch_json (LocationConcept.geocodingUrl GOOGLE_API_KEY encodeURIComponent address))
    "results"
  = Fulfilled (JSArray candidates) →
  let r := LocationConcept.getAddressLocation GOOGLE_API_KEY encodeURIComponent
             fetch_json address in
  ((∃ m, r = Rejected (NotFoundError m)) ↔ candidates = [])
  ∧ (candidates = [] → r = Rejected (NotFoundError "Address Not Found"))
  ∧ (∀ candidate rest geometry loc,
        candidates = candidate :: rest →
        LocationConcept.prop candidate "geometry" = Fulfilled geometry →
        LocationConcept.prop geometry "location" = Fulfilled loc →
        r = Fulfilled loc)
  ∧ (∀ lat lng rest,
        candidates = geocode_candidate (lat_lng lat lng) :: rest →
        r = Fulfilled (lat_lng lat lng)).
Proof.
  intros Hbody r.
  assert (Hr : r = if bool_decide (candidates = [])
                   then Rejected (NotFoundError "Address Not Found")
                   else LocationConcept.andThen (LocationConcept.first (JSArray candidates))
                          (fun candidate =>
                           LocationConcept.andThen (LocationConcept.prop candidate "geometry")
                             (fun geometry => LocationConcept.prop geometry "location"))).
  { subst r. unfold LocationConcept.getAddressLocation. rewrite Hbody.
    cbn [LocationConcept.andThen LocationConcept.prop].
    rewrite bool_decide_eq_true_2 by done. cbn [LocationConcept.andThen].
    by rewrite length_is_zero. }
  assert (Hcons : ∀ candidate rest geometry loc,
             candidates = candidate :: rest →
             LocationConcept.prop candidate "geometry" = Fulfilled geometry →
             LocationConcept.prop geometry "location" = Fulfilled loc →
             r = Fulfilled loc).
  { intros candidate rest geometry loc -> Hg Hl. rewrite Hr.
    rewrite bool_decide_eq_false_2 by discriminate. simpl.
    rewrite Hg. simpl. exact Hl. }
  split; [|split; [|split]].
  - split.
    + intros [m Hm]. rewrite Hr in Hm. case_bool_decide; [done|].
      exfalso. destruct candidates as [|candidate rest]; [done|].
      simpl in Hm.
      destruct (LocationConcept.prop candidate "geometry") as [geometry|e] eqn:Hg;
        simpl in Hm.
      * by apply prop_not_NotFound in Hm.
      * rewrite <- Hg in Hm. by apply prop_not_NotFound in Hm.
    + intros ->. rewrite Hr. eexists. reflexivity.
  - intros ->. by rewrite Hr.
  - exact Hcons.
  - intros lat lng rest Hc.
    by apply (Hcons _ _ (JSObject [("location", lat_lng lat lng)]) _ Hc).
Qed.

Lemma witness_C9 :
  let stub := fun _ : string =>
    geocode_body [geocode_candidate (lat_lng (3742 # 100) (-12208 # 100))] in
  let r := LocationConcept.getAddressLocation (Some "key") (fun s => s) stub
             "1600 Amphitheatre Parkway" in
  r = Fulfilled (lat_lng (3742 # 100) (-12208 # 100)).
Proof.
  intros stub r.
  pose proof (C9_getAddressLocation_first_candidate (Some "key") (fun s => s) stub
                "1600 Amphitheatre Parkway"
                [geocode_candidate (lat_lng (3742 # 100) (-12208 # 100))]) as H.
  destruct (H eq_refl) as (_ & _ & _ & Hfirst).
  apply (Hfirst _ _ []). reflexivity.
Defined.

(** * Further properties of the operations *)

(** ** Creation *)

(** X1: [create] stores the event under an id that was free, with the five
    collection fields empty, and returns that record; taking the new record
    out again gives the collection it started from, and no rejection is left
    behind. *)
Theorem create_adds_empty_event (c : DocCollection) h t d l a cap :
  let r := run (EventConcept.create h t d l a cap) c in
  ∃ e, c !! e = None
       ∧ settled r
         = Fulfilled (mkCreated "Event successfully created!"
                        (Some (mkEventDoc e h t d l a cap [] [] [] [] [])))
       ∧ unhandled r = []
       ∧ db r !! e = Some (mkEventDoc e h t d l a cap [] [] [] [] [])
       ∧ delete e (db r) = c.
Proof.
  intros r. exists (fresh_string "event" c).
  destruct (run_create c h t d l a cap) as [Hs Hdb]. fold r in Hs, Hdb.
  pose proof (fresh_string_fresh c "event") as Hfresh.
  split; [done|]. split; [done|]. split; [done|].
  rewrite Hdb. split; [apply lookup_insert_eq|].
  by rewrite delete_insert_eq, delete_id.
Qed.

(** ** Guards *)

Section Guards.
Variable c : DocCollection.
Variable _id : ObjectId.

Ltac run_guard :=
  simpl; destruct (c !! _id) as [ev|]; simpl; unfold toString;
  rewrite ?includes_deserialise; repeat case_bool_decide;
  simpl; try done.

Lemma guards_keep_collection person :
  db (run (EventConcept.isHost person _id) c) = c
  ∧ db (run (EventConcept.isNotHost person _id) c) = c
  ∧ db (run (EventConcept.isInterested person _id) c) = c
  ∧ db (run (EventConcept.isNotInterested person _id) c) = c
  ∧ db (run (EventConcept.isAttending person _id) c) = c
  ∧ db (run (EventConcept.isNotAttending person _id) c) = c.
Proof. repeat split; run_guard. Qed.

Lemma guards_leave_nothing_unhandled person :
  unhandled (run (EventConcept.isHost person _id) c) = []
  ∧ unhandled (run (EventConcept.isNotHost person _id) c) = []
  ∧ unhandled (run (EventConcept.isInterested person _id) c) = []
  ∧ unhandled (run (EventConcept.isNotInterested person _id) c) = []
  ∧ unhandled (run (EventConcept.isAttending person _id) c) = []
  ∧ unhandled (run (EventConcept.isNotAttending person _id) c) = [].
Proof. repeat split; run_guard. Qed.

Lemma run_isHost person :
  settled (run (EventConcept.isHost person _id) c)
  = match c !! _id with
    | None => Rejected (NotFoundError ("Event " +:+ _id +:+ " does not exist!"))
    | Some ev => if bool_decide (host ev = person) then Fulfilled tt
                 else Rejected (EventHostNotMatchError person _id)
    end.
Proof. run_guard. Qed.

Lemma run_isNotHost_any person :
  settled (run (EventConcept.isNotHost person _id) c)
  = match c !! _id with
    | None => Rejected (NotFoundError ("Event " +:+ _id +:+ " does not exist!"))
    | Some ev => if bool_decide (host ev = person) then Fulfilled tt
                 else Rejected (NotAllowedError "Person is a host.")
    end.
Proof. run_guard. Qed.

Lemma run_membership_guards person :
  settled (run (EventConcept.isInterested person _id) c)
  = match c !! _id with
    | None => Rejected (NotFoundError ("Event " +:+ _id +:+ " does not exist!"))
    | Some ev => Rejected (NotFoundError "Person not interested in event.")
    end
  ∧ settled (run (EventConcept.isNotInterested person _id) c)
    = match c !! _id with
      | None => Rejected (NotFoundError ("Event " +:+ _id +:+ " does not exist!"))
      | Some ev => Fulfilled tt
      end
  ∧ settled (run (EventConcept.isAttending person _id) c)
    = match c !! _id with
      | None => Rejected (NotFoundError ("Event " +:+ _id +:+ " does not exist!"))
      | Some ev => Rejected (NotFoundError "Person not attending event.")
      end
  ∧ settled (run (EventConcept.isNotAttending person _id) c)
    = match c !! _id with
      | None => Rejected (NotFoundError ("Event " +:+ _id +:+ " does not exist!"))
      | Some ev => Fulfilled tt
      end.
Proof. repeat split; run_guard. Qed.
End Guards.

(** X2: [isNotHost] lets a person through exactly when [isHost] does, that
    is, exactly when the event exists and the person is its host. *)
Theorem isNotHost_passes_exactly_the_host (c : DocCollection) _id person :
  (settled (run (EventConcept.isNotHost person _id) c) = Fulfilled tt
   ↔ settled (run (EventConcept.isHost person _id) c) = Fulfilled tt)
  ∧ (settled (run (EventConcept.isNotHost person _id) c) = Fulfilled tt
     ↔ ∃ ev, c !! _id = Some ev ∧ host ev = person).
Proof.
  rewrite run_isHost, run_isNotHost_any.
  destruct (c !! _id) as [ev|]; [case_bool_decide|].
  - split; [done|]. split; [intros _; by exists ev | done].
  - split; [done|]. split; [done|]. intros (ev' & [= <-] & ?). done.
  - split; [done|]. split; [done|]. intros (ev' & ? & _). done.
Qed.

(** X3: the six guards only read: each leaves the collection as it was and
    leaves no rejection behind other than its own. *)
Theorem guards_only_read (c : DocCollection) _id person :
  Forall (fun guard : Async unit =>
            db (run guard c) = c ∧ unhandled (run guard c) = [])
    [EventConcept.isHost person _id; EventConcept.isNotHost person _id;
     EventConcept.isInterested person _id; EventConcept.isNotInterested person _id;
     EventConcept.isAttending person _id; EventConcept.isNotAttending person _id].
Proof.
  destruct (guards_keep_collection c _id person) as (?&?&?&?&?&?).
  destruct (guards_leave_nothing_unhandled c _id person) as (?&?&?&?&?&?).
  repeat (apply Forall_cons; split; [done|]). apply Forall_nil_2.
Qed.

(** X4: on a stored event the membership guards do not depend on the lists:
    [isInterested] and [isAttending] reject with NotFound and
    [isNotInterested] and [isNotAttending] pass, also for a person whose
    identity is in the list, because [includes] looks for the caller's object
    among the objects [readOne] built. *)
Theorem membership_guards_never_find (c : DocCollection) _id ev person :
  c !! _id = Some ev →
  settled (run (EventConcept.isInterested person _id) c)
  = Rejected (NotFoundError "Person not interested in event.")
  ∧ settled (run (EventConcept.isNotInterested person _id) c) = Fulfilled tt
  ∧ settled (run (EventConcept.isAttending person _id) c)
    = Rejected (NotFoundError "Person not attending event.")
  ∧ settled (run (EventConcept.isNotAttending person _id) c) = Fulfilled tt.
Proof.
  intros Hev.
  destruct (run_membership_guards c _id person) as (-> & -> & -> & ->).
  by rewrite Hev.
Qed.

Lemma witness_membership_guards_never_find :
  let ev := mkEventDoc "e" "h" "party" "" "" 18 50 [] [] [] ["p"] ["p"] in
  let c : DocCollection := {["e" := ev]} in
  settled (run (EventConcept.isInterested "p" "e") c)
  = Rejected (NotFoundError "Person not interested in event.")
  ∧ settled (run (EventConcept.isNotInterested "p" "e") c) = Fulfilled tt
  ∧ settled (run (EventConcept.isAttending "p" "e") c)
    = Rejected (NotFoundError "Person not attending event.")
  ∧ settled (run (EventConcept.isNotAttending "p" "e") c) = Fulfilled tt.
Proof.
  intros ev c. apply (membership_guards_never_find c "e" ev "p").
  vm_compute. reflexivity.
Defined.

(** X5: on an id that resolves to no record, each of the six guards is
    rejected with the NotFound error naming the id. *)
Theorem guards_reject_missing_event (c : DocCollection) _id person :
  c !! _id = None →
  Forall (fun guard : Async unit =>
            settled (run guard c)
            = Rejected (NotFoundError ("Event " +:+ _id +:+ " does not exist!")))
    [EventConcept.isHost person _id; EventConcept.isNotHost person _id;
     EventConcept.isInterested person _id; EventConcept.isNotInterested person _id;
     EventConcept.isAttending person _id; EventConcept.isNotAttending person _id].
Proof.
  intros Hnone.
  pose proof (run_isHost c _id person) as H1.
  pose proof (run_isNotHost_any c _id person) as H2.
  destruct (run_membership_guards c _id person) as (H3 & H4 & H5 & H6).
  rewrite Hnone in H1, H2, H3, H4, H5, H6.
  repeat (apply Forall_cons; split; [done|]). apply Forall_nil_2.
Qed.

Lemma witness_guards_reject_missing_event :
  Forall (fun guard : Async unit =>
            settled (run guard (∅ : DocCollection))
            = Rejected (NotFoundError "Event e7 does not exist!"))
    [EventConcept.isHost "p" "e7"; EventConcept.isNotHost "p" "e7";
     EventConcept.isInterested "p" "e7"; EventConcept.isNotInterested "p" "e7";
     EventConcept.isAttending "p" "e7"; EventConcept.isNotAttending "p" "e7"].
Proof. apply (guards_reject_missing_event ∅ "e7" "p"). reflexivity. Defined.

(** ** RSVP transitions, continued *)

Section RunMissing.
Variable c : DocCollection.
Variable _id : ObjectId.
Hypothesis Hnone : c !! _id = None.

Lemma run_rsvp_missing op :
  settled (run (rsvp _id op) c) = Rejected (NotFoundError "Event does not exist.")
  ∧ db (run (rsvp _id op) c) = c
  ∧ NotFoundError ("Event " +:+ _id +:+ " does not exist!")
    ∈ unhandled (run (rsvp _id op) c).
Proof.
  destruct op; simpl; rewrite ?Hnone; simpl; rewrite ?Hnone; simpl;
    rewrite ?Hnone; simpl; (split; [done|]); (split; [done|]);
    unfold toString; apply elem_of_cons; by left.
Qed.

Lemma run_tags_missing tag :
  Forall (fun op : Async Msg =>
            run op c = mkOutcome (Rejected (NotFoundError "Event does not exist.")) [] c)
    [EventConcept.addTopic _id tag; EventConcept.removeTopic _id tag;
     EventConcept.addAmenity _id tag; EventConcept.removeAmenity _id tag;
     EventConcept.addAccommodation _id tag; EventConcept.removeAccommodation _id tag].
Proof.
  repeat (apply Forall_cons; split; [simpl; by rewrite Hnone|]).
  apply Forall_nil_2.
Qed.
End RunMissing.

Lemma run_rsvp_stored (c : DocCollection) _id ev op :
  c !! _id = Some ev →
  ∃ interested' attending' m,
    settled (run (rsvp _id op) c) = Fulfilled m
    ∧ db (run (rsvp _id op) c)
      = alter (merge (EventConcept.rsvp_fields interested' attending')) _id c.
Proof.
  intros Hev. destruct op as [p|p|p|p]; simpl rsvp.
  - destruct (run_indicateInterest c _id ev Hev p) as [Hs Hdb]; eauto.
  - destruct (run_removeInterest c _id ev Hev p) as [Hs Hdb]; eauto.
  - destruct (run_indicateAttendance c _id ev Hev p) as [Hs Hdb]; eauto.
  - destruct (run_removeAttendance c _id ev Hev p) as [Hs Hdb]; eauto.
Qed.

(** X6: on an id that resolves to no record, each of the four RSVP
    transitions is rejected with NotFound and writes nothing; the NotFound of
    its guards, which names the id, stays unhandled. *)
Theorem rsvp_rejects_missing_event (c : DocCollection) _id op :
  c !! _id = None →
  settled (run (rsvp _id op) c) = Rejected (NotFoundError "Event does not exist.")
  ∧ db (run (rsvp _id op) c) = c
  ∧ NotFoundError ("Event " +:+ _id +:+ " does not exist!")
    ∈ unhandled (run (rsvp _id op) c).
Proof. intros Hnone. by apply run_rsvp_missing. Qed.

Lemma witness_rsvp_rejects_missing_event :
  let r := run (rsvp "e7" (RemoveAttendance "p")) (∅ : DocCollection) in
  settled r = Rejected (NotFoundError "Event does not exist.")
  ∧ db r = ∅
  ∧ NotFoundError "Event e7 does not exist!" ∈ unhandled r.
Proof.
  apply (rsvp_rejects_missing_event ∅ "e7" (RemoveAttendance "p")). reflexivity.
Defined.

(** X7: on an id that resolves to no record, each of the six tag-list
    operations is rejected with NotFound, writes nothing and leaves nothing
    unhandled. *)
Theorem tags_reject_missing_event (c : DocCollection) _id tag :
  c !! _id = None →
  Forall (fun op : Async Msg =>
            run op c = mkOutcome (Rejected (NotFoundError "Event does not exist.")) [] c)
    [EventConcept.addTopic _id tag; EventConcept.removeTopic _id tag;
     EventConcept.addAmenity _id tag; EventConcept.removeAmenity _id tag;
     EventConcept.addAccommodation _id tag; EventConcept.removeAccommodation _id tag].
Proof. intros Hnone. by apply run_tags_missing. Qed.

Lemma witness_tags_reject_missing_event :
  Forall (fun op : Async Msg =>
            run op (∅ : DocCollection)
            = mkOutcome (Rejected (NotFoundError "Event does not exist.")) [] ∅)
    [EventConcept.addTopic "e7" "music"; EventConcept.removeTopic "e7" "music";
     EventConcept.addAmenity "e7" "music"; EventConcept.removeAmenity "e7" "music";
     EventConcept.addAccommodation "e7" "music";
     EventConcept.removeAccommodation "e7" "music"].
Proof. apply (tags_reject_missing_event ∅ "e7" "music"). reflexivity. Defined.

(** X8: an RSVP transition touches nothing but the two RSVP lists of its
    target: every other record is left as it was, and the target keeps its
    id, host, descriptive fields and tag lists. *)
Theorem rsvp_touches_only_rsvp_lists (c : DocCollection) _id ev op :
  c !! _id = Some ev →
  (∃ ev', db (run (rsvp _id op) c) !! _id = Some ev'
          ∧ ev' = merge (EventConcept.rsvp_fields (interested ev') (attending ev')) ev)
  ∧ ∀ j, j ≠ _id → db (run (rsvp _id op) c) !! j = c !! j.
Proof.
  intros Hev.
  destruct (run_rsvp_stored c _id ev op Hev) as (i' & a' & m & _ & ->).
  split.
  - rewrite (lookup_updateOne _ _ _ _ Hev). eexists; split; [done|]. done.
  - intros j Hj. by rewrite lookup_alter_ne.
Qed.

Lemma witness_rsvp_touches_only_rsvp_lists :
  let ev := mkEventDoc "e" "h" "party" "" "" 18 50 ["music"] [] [] [] [] in
  let other := mkEventDoc "f" "g" "talk" "" "" 0 10 [] [] [] ["p"] [] in
  let c : DocCollection := {["e" := ev; "f" := other]} in
  let c' := db (run (rsvp "e" (IndicateInterest "p")) c) in
  (∃ ev', c' !! "e" = Some ev'
          ∧ ev' = merge (EventConcept.rsvp_fields (interested ev') (attending ev')) ev)
  ∧ c' !! "f" = Some other.
Proof.
  intros ev other c c'.
  assert (Hev : c !! "e" = Some ev) by (vm_compute; reflexivity).
  destruct (rsvp_touches_only_rsvp_lists c "e" ev (IndicateInterest "p") Hev)
    as [Htarget Hothers].
  split; [exact Htarget|].
  subst c'. rewrite (Hothers "f"); [vm_compute; reflexivity | discriminate].
Defined.

(** X9: on a stored event [indicateInterest] always appends the person to
    [interested], also when the person is there already, and leaves
    [attending] exactly as it was, also when the person is attending: the
    search that guards the removal never finds the caller's object. *)
Theorem indicateInterest_appends_only (c : DocCollection) _id ev person :
  c !! _id = Some ev →
  let r := run (EventConcept.indicateInterest person _id) c in
  settled r = Fulfilled (mkMsg "Successfully indicated interest in event.")
  ∧ ∃ ev', db r !! _id = Some ev'
           ∧ interested ev' = interested ev ++ [person]
           ∧ attending ev' = attending ev.
Proof.
  intros Hev r. destruct (run_indicateInterest c _id ev Hev person) as [Hs Hdb].
  fold r in Hs, Hdb. split; [done|].
  rewrite Hdb, (lookup_updateOne _ _ _ _ Hev). eexists; split; done.
Qed.

Lemma witness_indicateInterest_appends_only :
  let ev := mkEventDoc "e" "h" "party" "" "" 18 50 [] [] [] ["p"] ["q"; "p"; "p"] in
  let r := run (EventConcept.indicateInterest "p" "e") {["e" := ev]} in
  settled r = Fulfilled (mkMsg "Successfully indicated interest in event.")
  ∧ ∃ ev', db r !! "e" = Some ev'
           ∧ interested ev' = ["p"] ++ ["p"] ∧ attending ev' = ["q"; "p"; "p"].
Proof.
  intros ev.
  apply (indicateInterest_appends_only {["e" := ev]} "e" ev "p").
  vm_compute. reflexivity.
Defined.

(** X10: on a stored event [removeInterest] is fulfilled whoever the person
    is, removes the last entry of [interested] (not the person's entry, also
    when the person is in the list), leaves [attending] as it was, and always
    leaves the NotFound of [isInterested] unhandled. *)
Theorem removeInterest_drops_last (c : DocCollection) _id ev person :
  c !! _id = Some ev →
  let r := run (EventConcept.removeInterest person _id) c in
  settled r = Fulfilled (mkMsg "Successfully removed interest in event.")
  ∧ NotFoundError "Person not interested in event." ∈ unhandled r
  ∧ ∃ ev', db r !! _id = Some ev'
           ∧ interested ev' = removelast (interested ev)
           ∧ attending ev' = attending ev.
Proof.
  intros Hev r. destruct (run_removeInterest c _id ev Hev person) as [Hs Hdb].
  fold r in Hs, Hdb. split; [done|]. split.
  - subst r. rewrite (unhandled_removeInterest c _id ev Hev).
    apply elem_of_app. right. apply list_elem_of_In. simpl. auto.
  - rewrite Hdb, (lookup_updateOne _ _ _ _ Hev). eexists; split; done.
Qed.

Lemma witness_removeInterest_drops_last :
  let ev := mkEventDoc "e" "h" "party" "" "" 18 50 [] [] [] ["p"; "q"] ["p"] in
  let r := run (EventConcept.removeInterest "p" "e") {["e" := ev]} in
  settled r = Fulfilled (mkMsg "Successfully removed interest in event.")
  ∧ NotFoundError "Person not interested in event." ∈ unhandled r
  ∧ ∃ ev', db r !! "e" = Some ev'
           ∧ interested ev' = removelast ["p"; "q"]
           ∧ attending ev' = ["p"].
Proof.
  intros ev.
  apply (removeInterest_drops_last {["e" := ev]} "e" ev "p").
  vm_compute. reflexivity.
Defined.

(** One RSVP transition keeps every entry of [attending], in order, and the
    two attendance transitions end with the person in it. *)
Lemma rsvp_step_keeps_attending (c : DocCollection) _id ev op :
  c !! _id = Some ev →
  ∃ ev', db (run (rsvp _id op) c) !! _id = Some ev'
         ∧ attending ev `prefix_of` attending ev'
         ∧ ∀ p, op = IndicateAttendance p ∨ op = RemoveAttendance p →
                p ∈ attending ev'.
Proof.
  intros Hev. destruct op as [q|q|q|q]; simpl rsvp.
  - destruct (run_indicateInterest c _id ev Hev q) as [_ ->].
    rewrite (lookup_updateOne _ _ _ _ Hev). eexists; split; [done|].
    split; [done|]. intros p [H|H]; discriminate H.
  - destruct (run_removeInterest c _id ev Hev q) as [_ ->].
    rewrite (lookup_updateOne _ _ _ _ Hev). eexists; split; [done|].
    split; [done|]. intros p [H|H]; discriminate H.
  - destruct (run_indicateAttendance c _id ev Hev q) as [_ ->].
    rewrite (lookup_updateOne _ _ _ _ Hev). eexists; split; [done|]. simpl.
    split; [by apply prefix_app_r|].
    intros p [[= ->]|H]; [|discriminate H].
    apply elem_of_app. right. apply elem_of_cons. by left.
  - destruct (run_removeAttendance c _id ev Hev q) as [_ ->].
    rewrite (lookup_updateOne _ _ _ _ Hev). eexists; split; [done|]. simpl.
    split; [by apply prefix_app_r|].
    intros p [H|[= ->]]; [discriminate H|].
    apply elem_of_app. right. apply elem_of_cons. by left.
Qed.

(** X11: no sequence of RSVP transitions takes anyone out of [attending]:
    on a stored event the old list is a prefix of the new one, and whoever
    called [indicateAttendance] or [removeAttendance] along the way is in it
    at the end. *)
Theorem rsvp_never_removes_attendance (ops : list RsvpOp)
    (c : DocCollection) _id ev :
  c !! _id = Some ev →
  ∃ ev', rsvp_seq _id ops c !! _id = Some ev'
         ∧ attending ev `prefix_of` attending ev'
         ∧ ∀ p, IndicateAttendance p ∈ ops ∨ RemoveAttendance p ∈ ops →
                p ∈ attending ev'.
Proof.
  revert c ev. induction ops as [|op ops IH]; intros c ev Hev.
  - exists ev. split; [done|]. split; [done|].
    intros p [H|H]; by apply elem_of_nil in H.
  - destruct (rsvp_step_keeps_attending c _id ev op Hev) as (ev1 & Hev1 & Hpre1 & Hin1).
    destruct (IH _ ev1 Hev1) as (ev' & Hev' & Hpre & Hin).
    exists ev'. unfold rsvp_seq in *. cbn [foldl]. split; [exact Hev'|].
    split; [by etrans|].
    intros p Hp.
    assert (Hcases : (op = IndicateAttendance p ∨ op = RemoveAttendance p)
                     ∨ (IndicateAttendance p ∈ ops ∨ RemoveAttendance p ∈ ops)).
    { destruct Hp as [Hp|Hp]; apply elem_of_cons in Hp as [Hp|Hp]; auto. }
    destruct Hcases as [Hop|Hlater]; [|by apply Hin].
    destruct Hpre as [k ->]. apply elem_of_app. left. by apply Hin1.
Qed.

Lemma witness_rsvp_never_removes_attendance :
  let ev := mkEventDoc "e" "h" "party" "" "" 18 50 [] [] [] [] ["q"] in
  let c : DocCollection := {["e" := ev]} in
  ∃ ev', rsvp_seq "e" [IndicateAttendance "p"; IndicateInterest "p";
                       RemoveAttendance "p"; RemoveInterest "q"] c !! "e"
         = Some ev'
         ∧ attending ev `prefix_of` attending ev'
         ∧ "p" ∈ attending ev'.
Proof.
  intros ev c.
  destruct (rsvp_never_removes_attendance
              [IndicateAttendance "p"; IndicateInterest "p";
               RemoveAttendance "p"; RemoveInterest "q"] c "e" ev)
    as (ev' & Hl & Hpre & Hin).
  - vm_compute. reflexivity.
  - exists ev'. split; [exact Hl|]. split; [exact Hpre|].
    apply Hin. left. apply list_elem_of_In. simpl. auto.
Defined.

(** X12: on a stored event [indicateAttendance] never changes [interested]
    and never shortens [attending]; for a person who is not in [interested]
    it appends the person to [attending], also when the person is there
    already. *)
Theorem indicateAttendance_appends (c : DocCollection) _id ev person :
  c !! _id = Some ev →
  let r := run (EventConcept.indicateAttendance person _id) c in
  settled r = Fulfilled (mkMsg "Successfully indicated attendance for event.")
  ∧ ∃ ev', db r !! _id = Some ev'
           ∧ interested ev' = interested ev
           ∧ (length (attending ev) ≤ length (attending ev'))%nat
           ∧ (person ∉ interested ev → attending ev' = attending ev ++ [person]).
Proof.
  intros Hev r. destruct (run_indicateAttendance c _id ev Hev person) as [Hs Hdb].
  fold r in Hs, Hdb. split; [done|].
  rewrite Hdb, (lookup_updateOne _ _ _ _ Hev). eexists; split; [done|].
  split; [done|]. simpl. split; [|done].
  rewrite length_app. lia.
Qed.

Lemma witness_indicateAttendance_appends :
  let ev := mkEventDoc "e" "h" "party" "" "" 18 50 [] [] [] [] ["p"] in
  let r := run (EventConcept.indicateAttendance "p" "e") {["e" := ev]} in
  settled r = Fulfilled (mkMsg "Successfully indicated attendance for event.")
  ∧ ∃ ev', db r !! "e" = Some ev'
           ∧ interested ev' = [] ∧ attending ev' = ["p"; "p"].
Proof.
  intros ev.
  assert (Hev : ({["e" := ev]} : DocCollection) !! "e" = Some ev)
    by (vm_compute; reflexivity).
  destruct (indicateAttendance_appends _ "e" ev "p" Hev) as (Hs & ev' & Hl & Hi & _ & Ha).
  split; [exact Hs|]. exists ev'. split; [exact Hl|]. split; [exact Hi|].
  apply Ha. simpl. apply not_elem_of_nil.
Defined.

(** X13: [removeAttendance] writes exactly what [indicateAttendance] writes:
    on every collection, stored event or not, the two leave the same
    collection. *)
Theorem removeAttendance_writes_as_indicateAttendance (c : DocCollection) _id person :
  db (run (EventConcept.removeAttendance person _id) c)
  = db (run (EventConcept.indicateAttendance person _id) c).
Proof.
  destruct (c !! _id) as [ev|] eqn:Hev.
  - destruct (run_removeAttendance c _id ev Hev person) as [_ ->].
    by destruct (run_indicateAttendance c _id ev Hev person) as [_ ->].
  - destruct (run_rsvp_missing c _id Hev (RemoveAttendance person)) as (_ & H1 & _).
    destruct (run_rsvp_missing c _id Hev (IndicateAttendance person)) as (_ & H2 & _).
    simpl rsvp in H1, H2. by rewrite H1, H2.
Qed.

Ltac run_rsvp_with Hev Hne :=
  simpl; rewrite Hev; simpl; unfold toString;
  rewrite (bool_decide_eq_false_2 _ Hne); simpl;
  repeat first [ rewrite Hev; simpl
               | match goal with
                 | |- context [JS.includes ?l ?x] => destruct (JS.includes l x); simpl
                 end ].

(** X14: on a stored event, an RSVP transition called by anyone but the host
    is fulfilled and leaves the rejection [NotAllowedError "Person is a
    host."] of its guard unhandled. *)
Theorem rsvp_by_guest_leaves_rejection (c : DocCollection) _id ev person op :
  c !! _id = Some ev →
  host ev ≠ person →
  op ∈ [IndicateInterest person; RemoveInterest person;
        IndicateAttendance person; RemoveAttendance person] →
  (∃ m, settled (run (rsvp _id op) c) = Fulfilled m)
  ∧ NotAllowedError "Person is a host." ∈ unhandled (run (rsvp _id op) c).
Proof.
  intros Hev Hne Hop. split.
  - destruct (run_rsvp_stored c _id ev op Hev) as (_ & _ & m & Hs & _); eauto.
  - repeat (apply elem_of_cons in Hop as [->|Hop]);
      [..|by apply elem_of_nil in Hop];
      run_rsvp_with Hev Hne; apply elem_of_cons; by left.
Qed.

Lemma witness_rsvp_by_guest_leaves_rejection :
  let ev := mkEventDoc "e" "h" "party" "" "" 18 50 [] [] [] [] [] in
  let c : DocCollection := {["e" := ev]} in
  (∃ m, settled (run (rsvp "e" (IndicateAttendance "p")) c) = Fulfilled m)
  ∧ NotAllowedError "Person is a host."
    ∈ unhandled (run (rsvp "e" (IndicateAttendance "p")) c).
Proof.
  intros ev c.
  apply (rsvp_by_guest_leaves_rejection c "e" ev "p" (IndicateAttendance "p")).
  - vm_compute. reflexivity.
  - simpl. discriminate.
  - apply list_elem_of_In. simpl. auto.
Defined.

(** X15: [indicateInterest] does not deduplicate: after [n] calls for the
    same person on a stored event, [interested] is the old list followed by
    [n] entries for that person. *)
Theorem indicateInterest_repeated (n : nat) (c : DocCollection) _id ev person :
  c !! _id = Some ev →
  ∃ ev', rsvp_seq _id (replicate n (IndicateInterest person)) c !! _id = Some ev'
         ∧ interested ev' = interested ev ++ replicate n person.
Proof.
  revert c ev. induction n as [|n IH]; intros c ev Hev.
  - exists ev. split; [done|]. by rewrite app_nil_r.
  - unfold rsvp_seq. cbn [replicate foldl rsvp].
    destruct (run_indicateInterest c _id ev Hev person) as [_ Hdb].
    rewrite Hdb. set (c1 := alter _ _id c).
    assert (H1 : c1 !! _id = Some (merge (EventConcept.rsvp_fields
                    (interested ev ++ [person]) (attending ev)) ev))
      by (subst c1; by apply lookup_updateOne).
    destruct (IH c1 _ H1) as (ev' & Hl & Hi).
    exists ev'. split; [exact Hl|]. rewrite Hi. simpl.
    by rewrite <- app_assoc.
Qed.

Lemma witness_indicateInterest_repeated :
  let ev := mkEventDoc "e" "h" "party" "" "" 18 50 [] [] [] ["q"] [] in
  ∃ ev', rsvp_seq "e" (replicate 3 (IndicateInterest "p")) {["e" := ev]} !! "e"
         = Some ev'
         ∧ interested ev' = ["q"; "p"; "p"; "p"].
Proof.
  intros ev.
  apply (indicateInterest_repeated 3 {["e" := ev]} "e" ev "p").
  vm_compute. reflexivity.
Defined.

(** ** Tag lists, continued *)

Lemma run_addAmenity (c : DocCollection) _id ev amenity :
  c !! _id = Some ev →
  run (EventConcept.addAmenity _id amenity) c
  = if JS.includes (amenities ev) amenity
    then mkOutcome (Rejected (NotAllowedError "Amenity already exists.")) [] c
    else mkOutcome (Fulfilled (mkMsg "Successfully added amenity to event.")) []
           (alter (merge (EventConcept.amenities_field
                            (JS.push (amenities ev) amenity))) _id c).
Proof. intros Hev. simpl. rewrite Hev. simpl. by destruct (JS.includes _ _). Qed.

Lemma run_addAccommodation (c : DocCollection) _id ev accommodation :
  c !! _id = Some ev →
  run (EventConcept.addAccommodation _id accommodation) c
  = if JS.includes (accommodations ev) accommodation
    then mkOutcome (Rejected (NotAllowedError "Accommodation already exists.")) [] c
    else mkOutcome (Fulfilled (mkMsg "Successfully added accommodation to event.")) []
           (alter (merge (EventConcept.accommodations_field
                            (JS.push (accommodations ev) accommodation))) _id c).
Proof. intros Hev. simpl. rewrite Hev. simpl. by destruct (JS.includes _ _). Qed.

Lemma includes_push_self (l : list string) (x : string) :
  JS.includes (JS.push l x) x = true.
Proof.
  apply includes_elem_of. unfold JS.push. apply elem_of_app. right.
  apply elem_of_cons. by left.
Qed.

Lemma NoDup_push (l : list string) (x : string) :
  x ∉ l → NoDup l → NoDup (JS.push l x).
Proof.
  intros Hx Hnd. unfold JS.push. apply NoDup_app. split; [done|]. split.
  - intros y Hy Hy'. apply elem_of_cons in Hy' as [->|Hy']; [done|].
    by apply elem_of_nil in Hy'.
  - apply NoDup_singleton.
Qed.

(** X16: on a stored event, [addAmenity] rejects a tag that is in
    [amenities] with NotAllowed and writes nothing; a tag that is not there
    is appended, and a second call with it is then rejected.  The list stays
    free of duplicates if it was. *)
Theorem addAmenity_adds_once (c : DocCollection) _id ev amenity :
  c !! _id = Some ev →
  let r := run (EventConcept.addAmenity _id amenity) c in
  (amenity ∈ amenities ev →
   r = mkOutcome (Rejected (NotAllowedError "Amenity already exists.")) [] c)
  ∧ (amenity ∉ amenities ev →
     settled r = Fulfilled (mkMsg "Successfully added amenity to event.")
     ∧ (∃ ev', db r !! _id = Some ev'
               ∧ amenities ev' = amenities ev ++ [amenity])
     ∧ run (EventConcept.addAmenity _id amenity) (db r)
       = mkOutcome (Rejected (NotAllowedError "Amenity already exists.")) [] (db r))
  ∧ (NoDup (amenities ev) →
     ∃ ev', db r !! _id = Some ev' ∧ NoDup (amenities ev')).
Proof.
  intros Hev r. pose proof (run_addAmenity c _id ev amenity Hev) as Hr.
  fold r in Hr. split; [|split].
  - intros Hin%includes_elem_of. by rewrite Hr, Hin.
  - intros Hout. rewrite (includes_not_elem_of _ _ Hout) in Hr. rewrite Hr.
    cbn [settled db]. split; [done|].
    pose proof (lookup_updateOne c _id ev
                  (EventConcept.amenities_field (JS.push (amenities ev) amenity))
                  Hev) as Hev'.
    split; [eexists; split; [exact Hev' | done]|].
    rewrite (run_addAmenity _ _ _ _ Hev'). simpl amenities.
    by rewrite includes_push_self.
  - intros Hnd. rewrite Hr.
    destruct (JS.includes (amenities ev) amenity) eqn:Hin; cbn [db].
    + by exists ev.
    + rewrite (lookup_updateOne _ _ _ _ Hev). eexists; split; [done|]. simpl.
      apply NoDup_push; [|done].
      intros H%includes_elem_of. congruence.
Qed.

Lemma witness_addAmenity_adds_once :
  let ev := mkEventDoc "e" "h" "party" "" "" 18 50 [] ["wifi"] [] [] [] in
  let c : DocCollection := {["e" := ev]} in
  let r := run (EventConcept.addAmenity "e" "pool") c in
  settled r = Fulfilled (mkMsg "Successfully added amenity to event.")
  ∧ (∃ ev', db r !! "e" = Some ev' ∧ amenities ev' = ["wifi"; "pool"])
  ∧ run (EventConcept.addAmenity "e" "pool") (db r)
    = mkOutcome (Rejected (NotAllowedError "Amenity already exists.")) [] (db r).
Proof.
  intros ev c.
  assert (Hev : c !! "e" = Some ev) by (vm_compute; reflexivity).
  apply (proj1 (proj2 (addAmenity_adds_once c "e" ev "pool" Hev))).
  simpl. intros H. apply list_elem_of_In in H. simpl in H.
  destruct H as [H|[]]. discriminate H.
Defined.

(** X17: [addAccommodation] behaves the same way on [accommodations]:
    NotAllowed and no write for a tag that is there, append otherwise, a
    second call rejected, no duplicates introduced. *)
Theorem addAccommodation_adds_once (c : DocCollection) _id ev accommodation :
  c !! _id = Some ev →
  let r := run (EventConcept.addAccommodation _id accommodation) c in
  (accommodation ∈ accommodations ev →
   r = mkOutcome (Rejected (NotAllowedError "Accommodation already exists.")) [] c)
  ∧ (accommodation ∉ accommodations ev →
     settled r = Fulfilled (mkMsg "Successfully added accommodation to event.")
     ∧ (∃ ev', db r !! _id = Some ev'
               ∧ accommodations ev' = accommodations ev ++ [accommodation])
     ∧ run (EventConcept.addAccommodation _id accommodation) (db r)
       = mkOutcome (Rejected (NotAllowedError "Accommodation already exists.")) []
           (db r))
  ∧ (NoDup (accommodations ev) →
     ∃ ev', db r !! _id = Some ev' ∧ NoDup (accommodations ev')).
Proof.
  intros Hev r. pose proof (run_addAccommodation c _id ev accommodation Hev) as Hr.
  fold r in Hr. split; [|split].
  - intros Hin%includes_elem_of. by rewrite Hr, Hin.
  - intros Hout. rewrite (includes_not_elem_of _ _ Hout) in Hr. rewrite Hr.
    cbn [settled db]. split; [done|].
    pose proof (lookup_updateOne c _id ev
                  (EventConcept.accommodations_field
                     (JS.push (accommodations ev) accommodation))
                  Hev) as Hev'.
    split; [eexists; split; [exact Hev' | done]|].
    rewrite (run_addAccommodation _ _ _ _ Hev'). simpl accommodations.
    by rewrite includes_push_self.
  - intros Hnd. rewrite Hr.
    destruct (JS.includes (accommodations ev) accommodation) eqn:Hin; cbn [db].
    + by exists ev.
    + rewrite (lookup_updateOne _ _ _ _ Hev). eexists; split; [done|]. simpl.
      apply NoDup_push; [|done].
      intros H%includes_elem_of. congruence.
Qed.

Lemma witness_addAccommodation_adds_once :
  let ev := mkEventDoc "e" "h" "party" "" "" 18 50 [] [] ["ramp"] [] [] in
  let c : DocCollection := {["e" := ev]} in
  run (EventConcept.addAccommodation "e" "ramp") c
  = mkOutcome (Rejected (NotAllowedError "Accommodation already exists.")) [] c.
Proof.
  intros ev c.
  assert (Hev : c !! "e" = Some ev) by (vm_compute; reflexivity).
  apply (proj1 (addAccommodation_adds_once c "e" ev "ramp" Hev)).
  simpl. apply list_elem_of_In. simpl. auto.
Defined.

(** X18: adding an amenity (or accommodation) that was not there and removing
    it again gives the stored event back as it was. *)
Theorem add_then_remove_restores (c : DocCollection) _id ev tag :
  c !! _id = Some ev →
  (tag ∉ amenities ev →
   db (run (EventConcept.removeAmenity _id tag)
         (db (run (EventConcept.addAmenity _id tag) c))) !! _id = Some ev)
  ∧ (tag ∉ accommodations ev →
     db (run (EventConcept.removeAccommodation _id tag)
           (db (run (EventConcept.addAccommodation _id tag) c))) !! _id = Some ev).
Proof.
  intros Hev. split; intros Hout.
  - rewrite (run_addAmenity _ _ _ _ Hev), (includes_not_elem_of _ _ Hout). cbn [db].
    pose proof (lookup_updateOne c _id ev
                  (EventConcept.amenities_field (JS.push (amenities ev) tag))
                  Hev) as Hev'.
    destruct (run_removeAmenity _ _ _ Hev' tag) as [_ ->].
    rewrite (lookup_updateOne _ _ _ _ Hev'). simpl. unfold JS.push.
    rewrite (splice_indexOf_present _ [] _ Hout), app_nil_r. by destruct ev.
  - rewrite (run_addAccommodation _ _ _ _ Hev), (includes_not_elem_of _ _ Hout).
    cbn [db].
    pose proof (lookup_updateOne c _id ev
                  (EventConcept.accommodations_field
                     (JS.push (accommodations ev) tag))
                  Hev) as Hev'.
    destruct (run_removeAccommodation _ _ _ Hev' tag) as [_ ->].
    rewrite (lookup_updateOne _ _ _ _ Hev'). simpl. unfold JS.push.
    rewrite (splice_indexOf_present _ [] _ Hout), app_nil_r. by destruct ev.
Qed.

Lemma witness_add_then_remove_restores :
  let ev := mkEventDoc "e" "h" "party" "" "" 18 50 [] ["wifi"] [] [] [] in
  let c : DocCollection := {["e" := ev]} in
  db (run (EventConcept.removeAmenity "e" "pool")
        (db (run (EventConcept.addAmenity "e" "pool") c))) !! "e" = Some ev.
Proof.
  intros ev c.
  assert (Hev : c !! "e" = Some ev) by (vm_compute; reflexivity).
  apply (proj1 (add_then_remove_restores c "e" ev "pool" Hev)).
  simpl. intros H. apply list_elem_of_In in H. simpl in H.
  destruct H as [H|[]]. discriminate H.
Defined.

(** ** update and delete, continued *)

Lemma db_update (c : DocCollection) _id u :
  db (run (EventConcept.update _id u) c)
  = match Partial.host u with
    | Some _ => c
    | None => alter (merge u) _id c
    end.
Proof.
  unfold EventConcept.update. simpl.
  destruct (Partial.host u) as [X|] eqn:Hh.
  - by rewrite (sanitizeUpdate_with_host u X Hh).
  - by rewrite (sanitizeUpdate_without_host u Hh).
Qed.

(** X19: the generic [update] never changes the host of a stored event,
    whichever of the Event's fields the partial has as keys (a partial with
    the [host] key is rejected, any other is merged without touching
    [host]), and it never changes a record other than its target. *)
Theorem update_keeps_host (c : DocCollection) target u j ev :
  c !! j = Some ev →
  ∃ ev', db (run (EventConcept.update target u) c) !! j = Some ev'
         ∧ host ev' = host ev
         ∧ (j ≠ target → ev' = ev).
Proof.
  intros Hj. rewrite db_update.
  destruct (Partial.host u) as [X|] eqn:Hh; [by exists ev|].
  destruct (decide (target = j)) as [->|Hne].
  - rewrite (lookup_updateOne _ _ _ _ Hj). eexists; split; [done|].
    simpl. rewrite Hh. done.
  - rewrite lookup_alter_ne by done. exists ev. done.
Qed.

Lemma witness_update_keeps_host :
  let ev := mkEventDoc "e" "h" "party" "" "" 18 50 [] [] [] [] [] in
  let c : DocCollection := {["e" := ev]} in
  let u := Partial.mk None (Some "gala") None None None (Some 80) None None None
             (Some ["h"]) None in
  ∃ ev', db (run (EventConcept.update "e" u) c) !! "e" = Some ev'
         ∧ host ev' = "h".
Proof.
  intros ev c u.
  destruct (update_keeps_host c "e" u "e" ev) as (ev' & Hl & Hh & _).
  - vm_compute. reflexivity.
  - exists ev'. split; [exact Hl | exact Hh].
Defined.

(** X21: [delete] is fulfilled on every id; afterwards the id resolves to no
    record, so [isHost] and every RSVP transition on it are rejected with
    NotFound, and deleting again changes nothing. *)
Theorem delete_then_not_found (c : DocCollection) _id person op :
  let r := run (EventConcept.delete _id) c in
  r = mkOutcome (Fulfilled (mkMsg "Event deleted successfully!")) [] (delete _id c)
  ∧ db r !! _id = None
  ∧ settled (run (EventConcept.isHost person _id) (db r))
    = Rejected (NotFoundError ("Event " +:+ _id +:+ " does not exist!"))
  ∧ settled (run (rsvp _id op) (db r))
    = Rejected (NotFoundError "Event does not exist.")
  ∧ db (run (EventConcept.delete _id) (db r)) = db r.
Proof.
  intros r. assert (Hr : r = mkOutcome (Fulfilled (mkMsg "Event deleted successfully!"))
                               [] (delete _id c)) by done.
  assert (Hnone : db r !! _id = None) by (rewrite Hr; apply lookup_delete_eq).
  split; [done|]. split; [done|]. split; [|split].
  - by rewrite run_isHost, Hnone.
  - by apply run_rsvp_missing.
  - rewrite Hr. cbn. by rewrite delete_delete_eq.
Qed.

(** X22: the event [create] stores passes [isHost] for its creator and for
    nobody else: anyone else is rejected with [EventHostNotMatchError], a
    NotAllowed error. *)
Theorem created_event_is_hosted_by_creator (c : DocCollection) h t d l a cap person :
  let r := run (EventConcept.create h t d l a cap) c in
  ∃ ev, settled r = Fulfilled (mkCreated "Event successfully created!" (Some ev))
        ∧ host ev = h
        ∧ settled (run (EventConcept.isHost person (_id ev)) (db r))
          = (if bool_decide (h = person) then Fulfilled tt
             else Rejected (EventHostNotMatchError person (_id ev)))
        ∧ isNotAllowed (EventHostNotMatchError person (_id ev)) = true.
Proof.
  intros r. destruct (run_create c h t d l a cap) as [Hs Hdb]. fold r in Hs, Hdb.
  eexists. split; [exact Hs|]. split; [done|]. split; [|done].
  rewrite run_isHost, Hdb. simpl _id. by rewrite lookup_insert_eq.
Qed.

(** ** Address lookup, continued *)

(** X23: a body that is [null], or has no [results] property, or whose first
    candidate has no [geometry], makes the lookup fail with a [TypeError],
    not with NotFound. *)
Theorem getAddressLocation_malformed_body
    (GOOGLE_API_KEY : option string) (encodeURIComponent : string → string)
    (fetch_json : string → JSValue) (address : string) :
  let body := fetch_json (LocationConcept.geocodingUrl GOOGLE_API_KEY
                            encodeURIComponent address) in
  let r := LocationConcept.getAddressLocation GOOGLE_API_KEY encodeURIComponent
             fetch_json address in
  (body = JSNull → ∃ m, r = Rejected (TypeError m))
  ∧ (LocationConcept.prop body "results" = Fulfilled JSUndefined →
     ∃ m, r = Rejected (TypeError m))
  ∧ (∀ candidate rest,
        LocationConcept.prop body "results" = Fulfilled (JSArray (candidate :: rest)) →
        LocationConcept.prop candidate "geometry" = Fulfilled JSUndefined →
        ∃ m, r = Rejected (TypeError m)).
Proof.
  intros body r. subst r. unfold LocationConcept.getAddressLocation. fold body.
  split; [|split].
  - intros ->. simpl. eauto.
  - intros ->. simpl. eauto.
  - intros candidate rest -> Hg. simpl. rewrite Hg. simpl. eauto.
Qed.

Lemma witness_getAddressLocation_malformed_body :
  ∃ m, LocationConcept.getAddressLocation None (fun s => s)
         (fun _ => JSObject [("status", JSString "REQUEST_DENIED")])
         "1600 Amphitheatre Parkway"
       = Rejected (TypeError m).
Proof.
  apply (proj1 (proj2 (getAddressLocation_malformed_body None (fun s => s)
                         (fun _ => JSObject [("status", JSString "REQUEST_DENIED")])
                         "1600 Amphitheatre Parkway"))).
  reflexivity.
Defined.
